(** * BeeFileStore: the storage service and the catalog handlers of the App

    A shallow embedding of [services/storageService.ts] (category detection,
    the IndexedDB blob store, the localStorage metadata document, size
    formatting) and of the handlers of [App.tsx] that drive them (upload,
    delete, login, the filtered and sorted view, the usage summary). *)

From Stdlib Require Import ZArith String Ascii List Lia Bool Permutation Sorted.
From stdpp Require Import base option list gmap strings pretty.

Local Open Scope Z_scope.
Local Open Scope string_scope.

(** ** JavaScript string primitives used by the source *)

Module JsString.

(** [s.startsWith(p)] *)
Fixpoint startsWith (p s : string) : bool :=
  match p, s with
  | EmptyString, _ => true
  | String a p', String b s' => if Ascii.eqb a b then startsWith p' s' else false
  | String _ _, EmptyString => false
  end.

(** [s.includes(sub)]: some suffix of [s] starts with [sub]. *)
Fixpoint includes (sub s : string) : bool :=
  startsWith sub s ||
  match s with
  | EmptyString => false
  | String _ s' => includes sub s'
  end.

(** ASCII case folding of one code unit, as [toLowerCase] does on 'A'..'Z'. *)
Definition lowerAscii (c : ascii) : ascii :=
  let n := nat_of_ascii c in
  if (65 <=? n)%nat && (n <=? 90)%nat then ascii_of_nat (n + 32) else c.

(** [s.toLowerCase()] on strings of ASCII code units: 'A'..'Z' are folded,
    every other code unit is kept.  On letters outside ASCII the source folds
    more than this; [isAscii] below marks the strings on which the two agree. *)
Fixpoint toLowerCase (s : string) : string :=
  match s with
  | EmptyString => EmptyString
  | String c s' => String (lowerAscii c) (toLowerCase s')
  end.

(** [s.endsWith(p)]: some suffix of [s] is [p]. *)
Fixpoint endsWith (p s : string) : bool :=
  String.eqb p s ||
  match s with
  | EmptyString => false
  | String _ s' => endsWith p s'
  end.

(** Every code unit of [s] is below 128. *)
Definition isAscii (s : string) : bool :=
  forallb (fun c => (nat_of_ascii c <? 128)%nat) (list_ascii_of_string s).

End JsString.

(** ** types.ts: the records the handlers manipulate *)

(** [FileCategory]; ['all'] is only used as the active filter. *)
Inductive FileCategory := all | images | videos | documents | others.

Definition categoryString (c : FileCategory) : string :=
  match c with
  | all => "all"
  | images => "images"
  | videos => "videos"
  | documents => "documents"
  | others => "others"
  end.

#[global] Instance FileCategory_eq_dec : EqDecision FileCategory.
Proof. solve_decision. Defined.

(** ** storageService.ts: detectCategory *)

Definition detectCategory (mimeType : string) : FileCategory :=
  if JsString.startsWith "image/" mimeType then images
  else if JsString.startsWith "video/" mimeType then videos
  else if JsString.includes "pdf" mimeType
          || JsString.includes "text" mimeType
          || JsString.includes "word" mimeType
          || JsString.includes "presentation" mimeType
          || JsString.includes "sheet" mimeType then documents
  else others.

(** ** storageService.ts: formatFileSize

    Byte counts are non-negative integers below 2^53, on which the double
    arithmetic of the source is exact: division by a power of 1024 is exact,
    and [toFixed] rounds the exact decimal expansion of its receiver.  The
    quotient [Math.log(bytes) / Math.log(k)] is modelled by its mathematical
    value, whose floor is [floor (log2 bytes / 10)]; the source rounds the two
    logarithms and their quotient to doubles, which gives the same floor for
    the byte counts below 1024^4 and at 1024^4 itself, but not for every
    larger one (just below 1024^5 the rounded quotient is already 5).
    [formatFileSizeWith] takes the floor as the host computes it. *)

Module JsNumber.

(** The integer [n] picked by [Number.prototype.toFixed(d)] for the
    non-negative rational [num / den]: [n / 10^d] is as close to the receiver
    as possible, the larger [n] on a tie. *)
Definition fixedDigits (d : nat) (num den : Z) : Z :=
  (2 * num * 10 ^ Z.of_nat d + den) / (2 * den).

(** Left-pad a digit string with zeros to width [d]. *)
Definition padZeros (d : nat) (s : string) : string :=
  string_of_list_ascii (repeat "0"%char (d - String.length s)) +:+ s.

(** [x.toFixed(d)] for [x = num / den >= 0]. *)
Definition toFixed (d : nat) (num den : Z) : string :=
  let n := fixedDigits d num den in
  let p := 10 ^ Z.of_nat d in
  match d with
  | O => pretty n
  | S _ => pretty (n / p) +:+ "." +:+ padZeros d (pretty (n mod p))
  end.

(** Drop the trailing zeros of a reversed fraction, then the point. *)
Fixpoint dropZerosRev (r : list ascii) : list ascii :=
  match r with
  | "0"%char :: r' => dropZerosRev r'
  | "."%char :: r' => r'
  | _ => r
  end.

(** [parseFloat(s) + ''] for [s] an output of [toFixed]: the shortest decimal
    of the parsed number, that is [s] without the trailing zeros of its
    fraction (and without the point when no fraction is left). *)
Definition parseFloatString (s : string) : string :=
  if JsString.includes "." s
  then string_of_list_ascii (rev (dropZerosRev (rev (list_ascii_of_string s))))
  else s.

End JsNumber.

(** [Math.floor(Math.log(bytes) / Math.log(1024))] for [bytes >= 1], the
    quotient being the mathematical one. *)
Definition unitIndex (bytes : Z) : Z := Z.log2 bytes / 10.

Definition sizes : list string := ["Bytes"; "KB"; "MB"; "GB"].

(** [sizes[i]] coerced to a string by [+]: an index past the end reads
    [undefined]. *)
Definition sizeLabel (i : Z) : string :=
  match sizes !! Z.to_nat i with
  | Some l => l
  | None => "undefined"
  end.

Definition formatFileSize (bytes : Z) : string :=
  if (bytes =? 0)%Z then "0 Bytes"
  else if (bytes <? 0)%Z then "NaN undefined"
  else
    let k := 1024 in
    let i := unitIndex bytes in
    JsNumber.parseFloatString (JsNumber.toFixed 2 bytes (k ^ i)) +:+ " " +:+ sizeLabel i.

(** [formatFileSize], with [Math.floor(Math.log(bytes) / Math.log(k))] as the
    host evaluates it in doubles: [logFloor bytes] is that number. *)
Definition formatFileSizeWith (logFloor : Z -> Z) (bytes : Z) : string :=
  if (bytes =? 0)%Z then "0 Bytes"
  else if (bytes <? 0)%Z then "NaN undefined"
  else
    let k := 1024 in
    let i := logFloor bytes in
    JsNumber.parseFloatString (JsNumber.toFixed 2 bytes (k ^ i)) +:+ " " +:+ sizeLabel i.

(** What is used of the host's logarithm: [Math.log] does not decrease when
    its argument grows (so neither does the floor of the quotient by the
    positive [Math.log(1024)]), and [Math.log(1024^4) / Math.log(1024)]
    evaluates to 4. *)
Record HostLog (logFloor : Z -> Z) : Prop := {
  hostLog_mono : forall a b, (1 <= a)%Z -> (a <= b)%Z -> (logFloor a <= logFloor b)%Z;
  hostLog_TiB : logFloor (1024 ^ 4)%Z = 4%Z
}.

(** ** Records *)

(** A browser [File]: the attributes the handlers read, and its bytes. *)
Module JsFile.
Record t := mk {
  name : string;
  type : string;
  size : Z;
  lastModified : Z;
  content : list Byte.byte
}.
End JsFile.

(** [BeeFile]: one entry of the metadata document. *)
Module BeeFile.
Record t := mk {
  id : string;
  blobId : string;
  name : string;
  type : string;
  size : Z;
  lastModified : Z;
  ownerId : string;
  category : FileCategory
}.
End BeeFile.

(** The session [User] kept in the App state. *)
Module User.
Record t := mk {
  id : string;
  email : string;
  name : string
}.
End User.

Inductive StorageStatus := IDLE | UPLOADING | SUCCESS | ERROR.

Inductive SortBy := SortName | SortSize | SortDate | SortCategory.
Inductive SortOrder := Asc | Desc.

(** ** The environment and the state

    [Env] holds what the platform decides: the string produced by the k-th
    evaluation of [Math.random().toString(36).substring(7)], and whether the
    k-th IndexedDB request ends in [onerror]. *)
Record Env := mkEnv {
  randomId : nat -> string;
  requestFails : nat -> bool
}.

Record World := mkWorld {
  (** IndexedDB object store [files] *)
  idb : gmap string JsFile.t;
  (** localStorage entry [bee_file_metadata]; [None] when never written *)
  metaDoc : option (list BeeFile.t);
  (** React state of [App] *)
  user : option User.t;
  files : list BeeFile.t;
  uploadStatus : StorageStatus;
  (** how many random ids and IndexedDB requests have been consumed *)
  draws : nat;
  requests : nat
}.

Definition setIdb (m : gmap string JsFile.t) (w : World) : World :=
  mkWorld m (metaDoc w) (user w) (files w) (uploadStatus w) (draws w) (requests w).
Definition setMetaDoc (d : option (list BeeFile.t)) (w : World) : World :=
  mkWorld (idb w) d (user w) (files w) (uploadStatus w) (draws w) (requests w).
Definition setUserState (u : option User.t) (w : World) : World :=
  mkWorld (idb w) (metaDoc w) u (files w) (uploadStatus w) (draws w) (requests w).
Definition setFilesState (fs : list BeeFile.t) (w : World) : World :=
  mkWorld (idb w) (metaDoc w) (user w) fs (uploadStatus w) (draws w) (requests w).
Definition setStatusState (s : StorageStatus) (w : World) : World :=
  mkWorld (idb w) (metaDoc w) (user w) (files w) s (draws w) (requests w).
Definition setDraws (n : nat) (w : World) : World :=
  mkWorld (idb w) (metaDoc w) (user w) (files w) (uploadStatus w) n (requests w).
Definition setRequests (n : nat) (w : World) : World :=
  mkWorld (idb w) (metaDoc w) (user w) (files w) (uploadStatus w) (draws w) n.

(** ** Promises over the state: a state and exception monad *)

Inductive Exn := IDBRequestError.

Inductive Outcome (A : Type) :=
| Resolved (a : A)
| Rejected (e : Exn).
Arguments Resolved {A} a.
Arguments Rejected {A} e.

Definition Async (A : Type) : Type := World -> Outcome A * World.

Definition ret {A} (a : A) : Async A := fun w => (Resolved a, w).

Definition bind {A B} (m : Async A) (k : A -> Async B) : Async B :=
  fun w =>
    match m w with
    | (Resolved a, w') => k a w'
    | (Rejected e, w') => (Rejected e, w')
    end.

(** [try { m } catch (err) { h err }] *)
Definition tryCatch {A} (m : Async A) (h : Exn -> Async A) : Async A :=
  fun w =>
    match m w with
    | (Resolved a, w') => (Resolved a, w')
    | (Rejected e, w') => h e w'
    end.

Definition modify (f : World -> World) : Async unit :=
  fun w => (Resolved tt, f w).

Definition get {A} (f : World -> A) : Async A :=
  fun w => (Resolved (f w), w).

Declare Scope async_scope.
Delimit Scope async_scope with async.
Notation "x <- m ;; k" := (bind m (fun x => k))
  (at level 99, m at next level, right associativity) : async_scope.
Notation "m ;;; k" := (bind m (fun _ => k))
  (at level 99, right associativity) : async_scope.
Local Open Scope async_scope.

(** ** storageService.ts: the blob store and the metadata document *)

(** One IndexedDB request, from opening the database ([initDB]) to the
    request's [onsuccess] or [onerror]: it consumes one answer of the
    environment. *)
Definition idbRequest (E : Env) (effect : World -> World) : Async unit :=
  fun w =>
    let w' := setRequests (S (requests w)) w in
    if requestFails E (requests w) then (Rejected IDBRequestError, w')
    else (Resolved tt, effect w').

Definition saveFileBlob (E : Env) (key : string) (blob : JsFile.t) : Async unit :=
  idbRequest E (fun w => setIdb (<[key := blob]> (idb w)) w).

(** [store.get(id)]: [request.result] is [undefined] for a missing key. *)
Definition getFileBlob (E : Env) (key : string) : Async (option JsFile.t) :=
  fun w =>
    match idbRequest E (fun w => w) w with
    | (Resolved _, w') => (Resolved (idb w' !! key), w')
    | (Rejected e, w') => (Rejected e, w')
    end.

Definition deleteFileBlob (E : Env) (key : string) : Async unit :=
  idbRequest E (fun w => setIdb (delete key (idb w)) w).

Definition getMetadata (w : World) : list BeeFile.t :=
  match metaDoc w with
  | Some data => data
  | None => []
  end.

(** [localStorage.setItem(METADATA_KEY, JSON.stringify(files))]; the write is
    taken to succeed (the quota of the local storage is not modelled). *)
Definition saveMetadata (fs : list BeeFile.t) : Async unit :=
  modify (setMetaDoc (Some fs)).

(** ** App.tsx: the handlers *)

Definition MAX_SIZE : Z := 300 * 1024 * 1024.

(** [Math.random().toString(36).substring(7)] *)
Definition freshId (E : Env) : Async string :=
  fun w => (Resolved (randomId E (draws w)), setDraws (S (draws w)) w).

Definition makeBeeFile (u : User.t) (ident : string) (file : JsFile.t) : BeeFile.t :=
  BeeFile.mk ident ("blob_" +:+ ident) (JsFile.name file)
    (if String.eqb (JsFile.type file) "" then "application/octet-stream"
     else JsFile.type file)
    (JsFile.size file) (JsFile.lastModified file) (User.id u)
    (detectCategory (JsFile.type file)).

(** The [for] loop of [handleUpload], [newFiles] being the records pushed so
    far. *)
Fixpoint uploadLoop (E : Env) (u : User.t) (fileList : list JsFile.t)
    (newFiles : list BeeFile.t) : Async (list BeeFile.t) :=
  match fileList with
  | [] => ret newFiles
  | file :: rest =>
      if (JsFile.size file >? MAX_SIZE)%Z then uploadLoop E u rest newFiles
      else
        ident <- freshId E ;;
        let beeFile := makeBeeFile u ident file in
        saveFileBlob E (BeeFile.blobId beeFile) file ;;;
        uploadLoop E u rest (newFiles ++ [beeFile])
  end.

(** [handleUpload]; the timer that resets the status to [IDLE] three seconds
    after a success is not part of the handler's own run. *)
Definition handleUpload (E : Env) (fileList : list JsFile.t) : Async unit :=
  fun w =>
    match user w with
    | None => (Resolved tt, w)
    | Some u =>
        (modify (setStatusState UPLOADING) ;;;
         tryCatch
           (newFiles <- uploadLoop E u fileList [] ;;
            current <- get getMetadata ;;
            saveMetadata (current ++ newFiles) ;;;
            modify (fun w => setFilesState (files w ++ newFiles) w) ;;;
            modify (setStatusState SUCCESS))
           (fun err => modify (setStatusState ERROR))) w
    end.

(** [handleDelete]; [confirmed] is the answer of [window.confirm]. *)
Definition handleDelete (E : Env) (confirmed : bool) (ident : string) : Async unit :=
  fun w =>
    if negb confirmed then (Resolved tt, w)
    else
      match List.find (fun f => String.eqb (BeeFile.id f) ident) (files w) with
      | Some fileToDelete =>
          (deleteFileBlob E (BeeFile.blobId fileToDelete) ;;;
           modify (setFilesState
                     (List.filter (fun f => negb (String.eqb (BeeFile.id f) ident)) (files w))) ;;;
           allMetadata <- get getMetadata ;;
           saveMetadata
             (List.filter (fun f => negb (String.eqb (BeeFile.id f) ident)) allMetadata)) w
      | None => (Resolved tt, w)
      end.

(** The listing a login installs: [getMetadata().filter(f => f.ownerId === u.id)]. *)
Definition listFiles (ownerId : string) (w : World) : list BeeFile.t :=
  List.filter (fun f => String.eqb (BeeFile.ownerId f) ownerId) (getMetadata w).

(** The body of the timer callback of [performLogin]. *)
Definition performLogin (u : User.t) : Async unit :=
  modify (setUserState (Some u)) ;;;
  modify (fun w => setFilesState (listFiles (User.id u) w) w).

(** The body of the timer callback of [handleLogout]. *)
Definition handleLogout : Async unit :=
  modify (setUserState None) ;;;
  modify (setFilesState []).

(** ** App.tsx: the derived views *)

(** [Array.prototype.sort(comparefn)]: the language's sort is stable; for a
    consistent comparator its result is the one of this stable insertion
    sort.  [insertSorted] puts [a] before the first element it does not
    compare greater than. *)
Fixpoint insertSorted {A} (comparefn : A -> A -> Z) (a : A) (l : list A) : list A :=
  match l with
  | [] => [a]
  | b :: l' =>
      if (comparefn a b <=? 0)%Z then a :: l else b :: insertSorted comparefn a l'
  end.

Definition arraySort {A} (comparefn : A -> A -> Z) (l : list A) : list A :=
  fold_right (insertSorted comparefn) [] l.

(** The arrow function handed to [result.sort]; [localeCompare] is the
    collation of the host's locale. *)
Definition compareFiles (localeCompare : string -> string -> Z)
    (sortBy : SortBy) (sortOrder : SortOrder) (a b : BeeFile.t) : Z :=
  let comp :=
    match sortBy with
    | SortName => localeCompare (BeeFile.name a) (BeeFile.name b)
    | SortSize => BeeFile.size a - BeeFile.size b
    | SortDate => BeeFile.lastModified a - BeeFile.lastModified b
    | SortCategory =>
        localeCompare (categoryString (BeeFile.category a))
                      (categoryString (BeeFile.category b))
    end in
  match sortOrder with
  | Asc => comp
  | Desc => - comp
  end.

Definition matchesFilter (search : string) (activeCategory : FileCategory)
    (f : BeeFile.t) : bool :=
  let matchesSearch :=
    JsString.includes (JsString.toLowerCase search)
                      (JsString.toLowerCase (BeeFile.name f)) in
  let matchesCategory :=
    bool_decide (activeCategory = all)
    || bool_decide (BeeFile.category f = activeCategory) in
  matchesSearch && matchesCategory.

Definition filteredFiles (localeCompare : string -> string -> Z)
    (fs : list BeeFile.t) (search : string) (activeCategory : FileCategory)
    (sortBy : SortBy) (sortOrder : SortOrder) : list BeeFile.t :=
  let result := List.filter (matchesFilter search activeCategory) fs in
  arraySort (compareFiles localeCompare sortBy sortOrder) result.

Record Usage := mkUsage { total : string; percent : string }.

Definition QUOTA : Z := 1024 * 1024 * 1024 * 2.

(** [files.reduce((acc, f) => acc + f.size, 0)] *)
Definition totalSize (fs : list BeeFile.t) : Z :=
  fold_left (fun acc f => acc + BeeFile.size f)%Z fs 0%Z.

(** [Math.min((total / quota) * 100, 100)] as a fraction. *)
Definition percentFraction (t : Z) : Z * Z :=
  if (t * 100 <=? 100 * QUOTA)%Z then (t * 100, QUOTA)%Z else (100, 1)%Z.

Definition storageUsage (fs : list BeeFile.t) : Usage :=
  let t := totalSize fs in
  let '(num, den) := percentFraction t in
  mkUsage (formatFileSize t) (JsNumber.toFixed 1 num den).

(** ** Runs of the App: the events a session is made of *)

Inductive Event :=
| EvLogin (u : User.t)
| EvLogout
| EvUpload (fileList : list JsFile.t)
| EvDelete (confirmed : bool) (ident : string).

Definition step (E : Env) (ev : Event) : Async unit :=
  match ev with
  | EvLogin u => performLogin u
  | EvLogout => handleLogout
  | EvUpload fileList => handleUpload E fileList
  | EvDelete confirmed ident => handleDelete E confirmed ident
  end.

(** A session in which every handler has run to its end before the next event
    is handled (no handler is started while another one awaits a request).
    A rejected handler leaves an unhandled rejection; the session goes on. *)
Definition run (E : Env) (evs : list Event) (w : World) : World :=
  fold_left (fun w ev => snd (step E ev w)) evs w.

(** A fresh installation: nothing stored, nobody logged in. *)
Definition emptyWorld : World :=
  mkWorld ∅ None None [] IDLE 0 0.

(** ** Sessions whose handlers end well *)

Definition resolved {A} (o : Outcome A) : bool :=
  match o with
  | Resolved _ => true
  | Rejected _ => false
  end.

(** If [ev] is a deletion, its handler resolves from [w]: neither the request
    to the blob store nor the write of the metadata document threw. *)
Definition deletionResolves (E : Env) (ev : Event) (w : World) : bool :=
  match ev with
  | EvDelete confirmed ident => resolved (fst (handleDelete E confirmed ident w))
  | _ => true
  end.

(** If [ev] is an upload by a logged-in user, its handler ends in the
    [SUCCESS] status from [w]. *)
Definition uploadSucceeds (E : Env) (ev : Event) (w : World) : bool :=
  match ev, user w with
  | EvUpload fileList, Some _ =>
      match uploadStatus (snd (handleUpload E fileList w)) with
      | SUCCESS => true
      | _ => false
      end
  | _, _ => true
  end.

(** Every deletion of the session resolves. *)
Fixpoint deletionsResolve (E : Env) (evs : list Event) (w : World) : bool :=
  match evs with
  | [] => true
  | ev :: rest =>
      deletionResolves E ev w && deletionsResolve E rest (snd (step E ev w))
  end.

(** Every upload of the session succeeds and every deletion resolves. *)
Fixpoint allSucceed (E : Env) (evs : list Event) (w : World) : bool :=
  match evs with
  | [] => true
  | ev :: rest =>
      uploadSucceeds E ev w && deletionResolves E ev w
      && allSucceed E rest (snd (step E ev w))
  end.

(** ** Vocabulary of the statements *)

(** [s] begins with [p]. *)
Definition StartsWith (p s : string) : Prop := exists r, s = p +:+ r.

(** [sub] occurs somewhere in [s]. *)
Definition Contains (sub s : string) : Prop := exists pre post, s = pre +:+ sub +:+ post.

(** The document markers the code looks for. *)
Definition documentMarkers : list string :=
  ["pdf"; "text"; "word"; "presentation"; "sheet"].

(** The markers listed by the specification. *)
Definition specMarkers : list string :=
  ["pdf"; "text"; "word"; "presentation"; "spreadsheet"].

(** The files of a batch that pass the size test of [handleUpload]. *)
Definition accepted (fileList : list JsFile.t) : list JsFile.t :=
  List.filter (fun f => (JsFile.size f <=? MAX_SIZE)%Z) fileList.

(** The records built for the accepted files [fs], paired with their files,
    when the first of them draws random id number [d]. *)
Fixpoint batch (E : Env) (u : User.t) (d : nat) (fs : list JsFile.t)
    : list (BeeFile.t * JsFile.t) :=
  match fs with
  | [] => []
  | f :: rest => (makeBeeFile u (randomId E d) f, f) :: batch E u (S d) rest
  end.

(** The blob store after putting each file under its record's blob key, in
    order. *)
Definition storeAll (m : gmap string JsFile.t) (b : list (BeeFile.t * JsFile.t))
    : gmap string JsFile.t :=
  fold_left (fun m p => <[BeeFile.blobId (fst p) := snd p]> m) b m.

(** The ids of the records of the metadata document. *)
Definition indexIds (w : World) : list string :=
  map BeeFile.id (getMetadata w).

(** ** Sample data for the concrete runs *)

Definition sampleUser : User.t := User.mk "u1" "bee@hive.test" "Bee".

Definition samplePng : JsFile.t :=
  JsFile.mk "a.png" "image/png" 4 1700000000000 [Byte.x89; Byte.x50; Byte.x4e; Byte.x47].

Definition samplePdf : JsFile.t :=
  JsFile.mk "b.pdf" "application/pdf" 4 1700000000001 [Byte.x25; Byte.x50; Byte.x44; Byte.x46].

(** An environment whose random ids never repeat and whose requests all
    succeed. *)
Definition calmEnv : Env := mkEnv (fun k => pretty k) (fun _ => false).

(** An environment in which [Math.random()] returns 0.5 each time: its base-36
    text is "0.i", of which [substring(7)] is the empty string. *)
Definition collidingEnv : Env := mkEnv (fun _ => "") (fun _ => false).

(** An environment in which exactly request number [n] fails. *)
Definition failingEnv (n : nat) : Env := mkEnv (fun k => pretty k) (fun k => Nat.eqb k n).


(** The fresh installation after [sampleUser] logged in. *)
Definition loggedIn : World := setUserState (Some sampleUser) emptyWorld.

(** The installation after [sampleUser] uploaded [samplePng]: one record with
    id "0" and its blob under "blob_0". *)
Definition stocked : World := snd (handleUpload calmEnv [samplePng] loggedIn).

(** A session with a failed upload in it: under [failingEnv 1] the second
    write of the first upload fails; the two later uploads draw the ids "2"
    and "3", and the record "2" is deleted. *)
Definition sampleSession : list Event :=
  [EvLogin sampleUser; EvUpload [samplePng; samplePdf]; EvUpload [samplePdf];
   EvUpload [samplePng]; EvDelete true "2"].

(** The invariant behind unique ids: the ids of the metadata document are
    pairwise distinct and each of them was drawn from the random source. *)
Definition IdsDrawn (E : Env) (w : World) : Prop :=
  NoDup (indexIds w) /\
  forall i, i ∈ indexIds w -> exists k, (k < draws w)%nat /\ i = randomId E k.

(** A consistent comparator, as the language requires of the argument of
    [sort]: swapping the arguments swaps the sign, and "not after" is
    transitive. *)
Record Consistent {A} (comparefn : A -> A -> Z) : Prop := mkConsistent {
  consistent_flip : forall a b, (comparefn a b < 0)%Z <-> (0 < comparefn b a)%Z;
  consistent_trans : forall a b c,
    (comparefn a b <= 0)%Z -> (comparefn b c <= 0)%Z -> (comparefn a c <= 0)%Z
}.

(** No element of [l] compares greater than one that comes after it. *)
Definition Ordered {A} (comparefn : A -> A -> Z) (l : list A) : Prop :=
  forall i j a b, (i < j)%nat -> l !! i = Some a -> l !! j = Some b ->
                  (comparefn a b <= 0)%Z.

(** The elements of [l] that compare equal to [x], in the order of [l]. *)
Definition tiedWith {A} (comparefn : A -> A -> Z) (x : A) (l : list A) : list A :=
  List.filter (fun y => (comparefn x y =? 0)%Z) l.

(** The sort key of [a] is not after the sort key of [b]. *)
Definition KeyLe (localeCompare : string -> string -> Z) (sortBy : SortBy)
    (a b : BeeFile.t) : Prop :=
  match sortBy with
  | SortName => (localeCompare (BeeFile.name a) (BeeFile.name b) <= 0)%Z
  | SortSize => (BeeFile.size a <= BeeFile.size b)%Z
  | SortDate => (BeeFile.lastModified a <= BeeFile.lastModified b)%Z
  | SortCategory =>
      (localeCompare (categoryString (BeeFile.category a))
                     (categoryString (BeeFile.category b)) <= 0)%Z
  end.

(** [a] and [b] have equal sort keys. *)
Definition KeyTie (localeCompare : string -> string -> Z) (sortBy : SortBy)
    (a b : BeeFile.t) : Prop :=
  match sortBy with
  | SortName => localeCompare (BeeFile.name a) (BeeFile.name b) = 0%Z
  | SortSize => BeeFile.size a = BeeFile.size b
  | SortDate => BeeFile.lastModified a = BeeFile.lastModified b
  | SortCategory =>
      localeCompare (categoryString (BeeFile.category a))
                    (categoryString (BeeFile.category b)) = 0%Z
  end.

(** A sample collation: strings ordered by their code units. *)
Fixpoint codeUnitCompare (a b : string) : Z :=
  match a, b with
  | EmptyString, EmptyString => 0
  | EmptyString, String _ _ => -1
  | String _ _, EmptyString => 1
  | String x a', String y b' =>
      let d := (Z.of_nat (nat_of_ascii x) - Z.of_nat (nat_of_ascii y))%Z in
      if (d =? 0)%Z then codeUnitCompare a' b' else d
  end.

(** The two records of the sort example: equal sizes, names "b" and "a". *)
Definition recordB : BeeFile.t :=
  BeeFile.mk "1" "blob_1" "b" "text/plain" 10 1700000000000 "u1" documents.
Definition recordA : BeeFile.t :=
  BeeFile.mk "2" "blob_2" "a" "text/plain" 10 1700000000001 "u1" documents.

(** The sum of the sizes of the records. *)
Definition sumSizes (fs : list BeeFile.t) : Z :=
  fold_right Z.add 0%Z (map BeeFile.size fs).

(** [n] is the integer for which [n / 10^d] is nearest to [num / den], the
    larger one on a tie. *)
Definition RoundsTo (d : nat) (num den n : Z) : Prop :=
  (2 * den * n <= 2 * num * 10 ^ Z.of_nat d + den < 2 * den * (n + 1))%Z.

(** The last code unit of a string. *)
Definition lastChar (s : string) : option ascii :=
  last (list_ascii_of_string s).

(** Three records of 1024, 2048 and 1024 * 1024 bytes. *)
Definition usageSample : list BeeFile.t :=
  [ BeeFile.mk "1" "blob_1" "a.txt" "text/plain" 1024 1700000000000 "u1" documents;
    BeeFile.mk "2" "blob_2" "b.txt" "text/plain" 2048 1700000000001 "u1" documents;
    BeeFile.mk "3" "blob_3" "c.png" "image/png" (1024 * 1024) 1700000000002 "u1" images ].

(** ** Coherence of the listing, the index and the blob store *)

(** The listing shown is what a fresh login of the current user would list;
    nobody logged in, nothing listed. *)
Definition ViewInSync (w : World) : Prop :=
  match user w with
  | Some u => files w = listFiles (User.id u) w
  | None => files w = []
  end.

(** Every record of the index looks as [handleUpload] builds it. *)
Definition WellFormedRecord (r : BeeFile.t) : Prop :=
  BeeFile.blobId r = "blob_" +:+ BeeFile.id r /\
  BeeFile.category r = detectCategory (BeeFile.type r) /\
  BeeFile.category r <> all /\
  BeeFile.type r <> "" /\
  (BeeFile.size r <= MAX_SIZE)%Z.

(** Every record of the index has its blob in the blob store. *)
Definition NoDangling (w : World) : Prop :=
  forall r, r ∈ getMetadata w -> is_Some (idb w !! BeeFile.blobId r).

(** Every blob of the blob store is referenced by a record of the index. *)
Definition NoOrphans (w : World) : Prop :=
  forall key, is_Some (idb w !! key) ->
              exists r, r ∈ getMetadata w /\ BeeFile.blobId r = key.

Definition Coherent (w : World) : Prop :=
  ViewInSync w /\
  (forall r, r ∈ getMetadata w -> WellFormedRecord r) /\
  NoDangling w.

(** The sum of the sizes of browser files. *)
Definition sumFileSizes (fs : list JsFile.t) : Z :=
  fold_right Z.add 0%Z (map JsFile.size fs).


(** ** App.tsx: accounts, the sign-in forms and the page *)

(** An entry of the credential list [bee_users]. *)
Module Account.
Record t := mk {
  id : string;
  email : string;
  name : string;
  password : string
}.
End Account.

Inductive AuthMode := landing | login | signup.

(** The state of the whole page: the file state modelled above, the two
    other localStorage entries, and the React state of the forms.
    [signups] counts the user ids drawn so far. *)
Module AppState.
Record t := mk {
  world : World;
  (** localStorage entry [bee_users]; [None] when never written *)
  beeUsers : option (list Account.t);
  (** localStorage entry [bee_user]; [None] when absent *)
  beeUser : option User.t;
  email : string;
  password : string;
  name : string;
  error : string;
  authMode : AuthMode;
  transitioning : bool;
  signups : nat
}.
End AppState.

Definition setWorld (w : World) (s : AppState.t) : AppState.t :=
  AppState.mk w (AppState.beeUsers s) (AppState.beeUser s) (AppState.email s)
    (AppState.password s) (AppState.name s) (AppState.error s)
    (AppState.authMode s) (AppState.transitioning s) (AppState.signups s).
Definition setBeeUsers (us : option (list Account.t)) (s : AppState.t) : AppState.t :=
  AppState.mk (AppState.world s) us (AppState.beeUser s) (AppState.email s)
    (AppState.password s) (AppState.name s) (AppState.error s)
    (AppState.authMode s) (AppState.transitioning s) (AppState.signups s).
Definition setBeeUser (u : option User.t) (s : AppState.t) : AppState.t :=
  AppState.mk (AppState.world s) (AppState.beeUsers s) u (AppState.email s)
    (AppState.password s) (AppState.name s) (AppState.error s)
    (AppState.authMode s) (AppState.transitioning s) (AppState.signups s).
Definition setEmail (e : string) (s : AppState.t) : AppState.t :=
  AppState.mk (AppState.world s) (AppState.beeUsers s) (AppState.beeUser s) e
    (AppState.password s) (AppState.name s) (AppState.error s)
    (AppState.authMode s) (AppState.transitioning s) (AppState.signups s).
Definition setPassword (p : string) (s : AppState.t) : AppState.t :=
  AppState.mk (AppState.world s) (AppState.beeUsers s) (AppState.beeUser s)
    (AppState.email s) p (AppState.name s) (AppState.error s)
    (AppState.authMode s) (AppState.transitioning s) (AppState.signups s).
Definition setName (n : string) (s : AppState.t) : AppState.t :=
  AppState.mk (AppState.world s) (AppState.beeUsers s) (AppState.beeUser s)
    (AppState.email s) (AppState.password s) n (AppState.error s)
    (AppState.authMode s) (AppState.transitioning s) (AppState.signups s).
Definition setError (e : string) (s : AppState.t) : AppState.t :=
  AppState.mk (AppState.world s) (AppState.beeUsers s) (AppState.beeUser s)
    (AppState.email s) (AppState.password s) (AppState.name s) e
    (AppState.authMode s) (AppState.transitioning s) (AppState.signups s).
Definition setAuthMode (m : AuthMode) (s : AppState.t) : AppState.t :=
  AppState.mk (AppState.world s) (AppState.beeUsers s) (AppState.beeUser s)
    (AppState.email s) (AppState.password s) (AppState.name s) (AppState.error s)
    m (AppState.transitioning s) (AppState.signups s).
Definition setTransitioning (b : bool) (s : AppState.t) : AppState.t :=
  AppState.mk (AppState.world s) (AppState.beeUsers s) (AppState.beeUser s)
    (AppState.email s) (AppState.password s) (AppState.name s) (AppState.error s)
    (AppState.authMode s) b (AppState.signups s).
Definition setSignups (n : nat) (s : AppState.t) : AppState.t :=
  AppState.mk (AppState.world s) (AppState.beeUsers s) (AppState.beeUser s)
    (AppState.email s) (AppState.password s) (AppState.name s) (AppState.error s)
    (AppState.authMode s) (AppState.transitioning s) n.

(** [JSON.parse(localStorage.getItem('bee_users') || '[]')] *)
Definition storedUsers (s : AppState.t) : list Account.t :=
  match AppState.beeUsers s with
  | Some users => users
  | None => []
  end.

Definition clearForm (s : AppState.t) : AppState.t :=
  setError "" (setName "" (setPassword "" (setEmail "" s))).

(** The timer callback of [changeAuthMode(mode)]. *)
Definition changeAuthModeTimer (mode : AuthMode) (s : AppState.t) : AppState.t :=
  setTransitioning false (clearForm (setAuthMode mode s)).

(** The timer callback of [performLogin(u)]: the session user is stored,
    installed and given its listing, and the form is cleared. *)
Definition performLoginTimer (u : Account.t) (s : AppState.t) : AppState.t :=
  let sessionUser := User.mk (Account.id u) (Account.email u) (Account.name u) in
  let s1 := setBeeUser (Some sessionUser) s in
  let s2 := setWorld (snd (performLogin sessionUser (AppState.world s1))) s1 in
  clearForm (setTransitioning false s2).

(** [handleLogin] up to the call of [performLogin]: the state it leaves and
    the account it hands to [performLogin], if any. *)
Definition handleLogin (s : AppState.t) : AppState.t * option Account.t :=
  let s1 := setError "" s in
  let users := storedUsers s1 in
  match List.find (fun u => String.eqb (Account.email u) (AppState.email s)
                            && String.eqb (Account.password u) (AppState.password s))
                  users with
  | Some foundUser => (setTransitioning true s1, Some foundUser)
  | None => (setError "Access denied. Lattice credentials mismatch." s1, None)
  end.

(** [handleSignUp] up to the call of [performLogin]; [randomUserId k] is the
    text of the k-th [Math.random().toString(36).substring(2, 9)]. *)
Definition handleSignUp (randomUserId : nat -> string) (s : AppState.t)
    : AppState.t * option Account.t :=
  let s1 := setError "" s in
  let users := storedUsers s1 in
  if existsb (fun u => String.eqb (Account.email u) (AppState.email s)) users
  then (setError "Identity already verified in this sector." s1, None)
  else
    let newUser := Account.mk (randomUserId (AppState.signups s)) (AppState.email s)
                     (AppState.name s) (AppState.password s) in
    let s2 := setSignups (S (AppState.signups s)) s1 in
    let s3 := setBeeUsers (Some (users ++ [newUser])%list) s2 in
    (setTransitioning true s3, Some newUser).

(** The timer callback of [handleLogout]. *)
Definition handleLogoutTimer (s : AppState.t) : AppState.t :=
  let s1 := setBeeUser None s in
  let s2 := setWorld (snd (handleLogout (AppState.world s1))) s1 in
  setTransitioning false (setAuthMode landing s2).

(** The page as a (re)load leaves it: every [useState] is back at its initial
    value, the three localStorage entries and the blob store are kept. *)
Definition freshPage (s : AppState.t) : AppState.t :=
  let w := AppState.world s in
  AppState.mk (mkWorld (idb w) (metaDoc w) None [] IDLE (draws w) (requests w))
    (AppState.beeUsers s) (AppState.beeUser s) "" "" "" "" landing false
    (AppState.signups s).

(** The timer callback of the loading effect, once the progress is full: a
    stored session is installed with its listing. *)
Definition restoreSession (s : AppState.t) : AppState.t :=
  match AppState.beeUser s with
  | Some u =>
      let w := AppState.world s in
      setWorld (setFilesState (listFiles (User.id u) w) (setUserState (Some u) w)) s
  | None => s
  end.

(** What can happen on the page; a handler that starts a timer is taken
    together with the callback of that timer. *)
Inductive AppEvent :=
| EvEmail (e : string)
| EvPassword (p : string)
| EvName (n : string)
| EvChangeAuthMode (mode : AuthMode)
| EvSubmitLogin
| EvSubmitSignUp
| EvSignOut
| EvReload
| EvFiles (fileList : list JsFile.t)
| EvRemove (confirmed : bool) (ident : string).

Definition appStep (randomUserId : nat -> string) (E : Env) (ev : AppEvent)
    (s : AppState.t) : AppState.t :=
  match ev with
  | EvEmail e => setEmail e s
  | EvPassword p => setPassword p s
  | EvName n => setName n s
  | EvChangeAuthMode mode => changeAuthModeTimer mode (setTransitioning true s)
  | EvSubmitLogin =>
      match handleLogin s with
      | (s', Some u) => performLoginTimer u s'
      | (s', None) => s'
      end
  | EvSubmitSignUp =>
      match handleSignUp randomUserId s with
      | (s', Some u) => performLoginTimer u s'
      | (s', None) => s'
      end
  | EvSignOut => handleLogoutTimer (setTransitioning true s)
  | EvReload => restoreSession (freshPage s)
  | EvFiles fileList => setWorld (snd (handleUpload E fileList (AppState.world s))) s
  | EvRemove confirmed ident =>
      setWorld (snd (handleDelete E confirmed ident (AppState.world s))) s
  end.

Definition runApp (randomUserId : nat -> string) (E : Env) (evs : list AppEvent)
    (s : AppState.t) : AppState.t :=
  fold_left (fun s ev => appStep randomUserId E ev s) evs s.

(** The page of a fresh installation. *)
Definition initialApp : AppState.t :=
  AppState.mk emptyWorld None None "" "" "" "" landing false 0.

(** Every deletion of the page session resolves. *)
Fixpoint removalsResolve (randomUserId : nat -> string) (E : Env)
    (evs : list AppEvent) (s : AppState.t) : bool :=
  match evs with
  | [] => true
  | ev :: rest =>
      match ev with
      | EvRemove confirmed ident =>
          resolved (fst (handleDelete E confirmed ident (AppState.world s)))
      | _ => true
      end
      && removalsResolve randomUserId E rest (appStep randomUserId E ev s)
  end.

(** The stored accounts have pairwise distinct emails, the stored session is
    the logged-in user, and the file state is coherent. *)
Definition AppInvariant (s : AppState.t) : Prop :=
  NoDup (map Account.email (storedUsers s)) /\
  AppState.beeUser s = user (AppState.world s) /\
  Coherent (AppState.world s).


(** Sample accounts: user ids "u0", "u1", ..., and the page after "Bee"
    signed up. *)
Definition sampleUserIds : nat -> string := fun k => "u" +:+ pretty k.

Definition signedUp : AppState.t :=
  runApp sampleUserIds calmEnv
    [EvChangeAuthMode signup; EvName "Bee"; EvEmail "bee@hive.test";
     EvPassword "nectar"; EvSubmitSignUp] initialApp.


(** "Bee" signs up, uploads two files and deletes the first record. *)
Definition samplePageSession : list AppEvent :=
  [EvChangeAuthMode signup; EvName "Bee"; EvEmail "bee@hive.test";
   EvPassword "nectar"; EvSubmitSignUp; EvFiles [samplePng; samplePdf];
   EvRemove true "0"].

(** ** components/PreviewModal.tsx and the thumbnails of App.tsx *)

(** [exts.some(ext => name.toLowerCase().endsWith(ext))] *)
Definition hasExtension (exts : list string) (fileName : string) : bool :=
  existsb (fun ext => JsString.endsWith ext (JsString.toLowerCase fileName)) exts.

(** [file.type === 'application/pdf' || file.name.toLowerCase().endsWith('.pdf')],
    as both components compute it. *)
Definition isPDF (file : BeeFile.t) : bool :=
  String.eqb (BeeFile.type file) "application/pdf"
  || JsString.endsWith ".pdf" (JsString.toLowerCase (BeeFile.name file)).

Module PreviewModal.

Definition textTypes : list string :=
  ["text/plain"; "text/markdown"; "application/json"; "application/javascript";
   "text/javascript"; "text/css"; "text/html"; "application/xml"; "text/csv"].

Definition extensions : list string :=
  [".txt"; ".md"; ".js"; ".json"; ".css"; ".html"; ".ts"; ".tsx"; ".py"; ".java";
   ".c"; ".cpp"; ".xml"; ".yaml"; ".yml"].

Definition isText (file : BeeFile.t) : bool :=
  existsb (String.eqb (BeeFile.type file)) textTypes
  || hasExtension extensions (BeeFile.name file).

Definition isAudio (file : BeeFile.t) : bool :=
  JsString.startsWith "audio/" (BeeFile.type file)
  || hasExtension [".mp3"; ".wav"; ".ogg"; ".m4a"; ".flac"] (BeeFile.name file).

Definition isVideo (file : BeeFile.t) : bool :=
  JsString.startsWith "video/" (BeeFile.type file)
  || hasExtension [".mp4"; ".webm"; ".ogg"; ".mov"] (BeeFile.name file).

(** The icon of the header. *)
Inductive HeaderIcon := MusicIcon | PlayIcon | EyeIcon.

Definition headerIcon (file : BeeFile.t) : HeaderIcon :=
  if isAudio file then MusicIcon
  else if isVideo file then PlayIcon
  else EyeIcon.

(** The element mounted in the main viewer area. *)
Inductive Viewer :=
| ImageViewer | PdfViewer | VideoPlayer | AudioPlayer | TextViewer | BinaryData.

Definition viewer (file : BeeFile.t) : Viewer :=
  if JsString.startsWith "image/" (BeeFile.type file) then ImageViewer
  else if isPDF file then PdfViewer
  else if isVideo file then VideoPlayer
  else if isAudio file then AudioPlayer
  else if isText file then TextViewer
  else BinaryData.

End PreviewModal.

Module FileThumbnail.

Definition isCode (file : BeeFile.t) : bool :=
  JsString.includes "javascript" (BeeFile.type file)
  || JsString.includes "json" (BeeFile.type file)
  || JsString.includes "html" (BeeFile.type file)
  || JsString.includes "css" (BeeFile.type file)
  || hasExtension [".js"; ".ts"; ".tsx"; ".py"; ".css"; ".html"; ".json"]
       (BeeFile.name file).

Definition isArchive (file : BeeFile.t) : bool :=
  hasExtension [".zip"; ".rar"; ".7z"; ".tar"; ".gz"] (BeeFile.name file).

Inductive Thumbnail :=
| ImageThumb | VideoThumb | PdfThumb | DocumentThumb | AudioThumb | CodeThumb
| ArchiveThumb | HexagonThumb.

(** What [FileThumbnail] renders; [thumbnailLoaded] says whether the object
    URL of an image blob has been set. *)
Definition thumbnail (thumbnailLoaded : bool) (file : BeeFile.t) : Thumbnail :=
  if bool_decide (BeeFile.category file = images) && thumbnailLoaded then ImageThumb
  else if bool_decide (BeeFile.category file = videos) then VideoThumb
  else if isPDF file then PdfThumb
  else if bool_decide (BeeFile.category file = documents) then DocumentThumb
  else if JsString.startsWith "audio/" (BeeFile.type file)
          || bool_decide (BeeFile.category file = others)
             && hasExtension [".mp3"; ".wav"; ".m4a"] (BeeFile.name file)
       then AudioThumb
  else if isCode file then CodeThumb
  else if isArchive file then ArchiveThumb
  else HexagonThumb.

End FileThumbnail.

(** [s] ends with [p]. *)
Definition EndsWith (p s : string) : Prop := exists pre, s = pre +:+ p.

(** A stored record named "Chime.OGG" of a type the browser did not know. *)
Definition recordOgg : BeeFile.t :=
  BeeFile.mk "7" "blob_7" "Chime.OGG" "application/octet-stream" 2048
    1700000000003 "u1" others.


(** The ids of the stored accounts are pairwise distinct and each was drawn
    from the source of user ids. *)
Definition UserIdsDrawn (randomUserId : nat -> string) (s : AppState.t) : Prop :=
  NoDup (map Account.id (storedUsers s)) /\
  forall i, i ∈ map Account.id (storedUsers s) ->
            exists k, (k < AppState.signups s)%nat /\ i = randomUserId k.


(** * Properties *)

(** ** Strings *)

Section StringFacts.

Lemma startsWith_spec (p s : string) :
  JsString.startsWith p s = true <-> exists r, s = p +:+ r.
Proof.
  revert s. induction p as [|a p IH]; intros s; simpl.
  - split; [intros _; by exists s | done].
  - destruct s as [|b s].
    + split; [done | intros [r Hr]; discriminate].
    + destruct (Ascii.eqb a b) eqn:Hab.
      * apply Ascii.eqb_eq in Hab as ->. rewrite IH. split.
        -- intros [r ->]. by exists r.
        -- intros [r Hr]. injection Hr as ->. by exists r.
      * split; [done |]. intros [r Hr]. injection Hr as <- _.
        by rewrite Ascii.eqb_refl in Hab.
Qed.

Lemma includes_spec (sub s : string) :
  JsString.includes sub s = true <-> exists pre post, s = pre +:+ sub +:+ post.
Proof.
  induction s as [|c s IH].
  - cbn [JsString.includes]. rewrite orb_false_r, startsWith_spec. split.
    + intros [r Hr]. by exists "", r.
    + intros [pre [post H]]. destruct pre; [by exists post | discriminate].
  - cbn [JsString.includes]. rewrite orb_true_iff, startsWith_spec, IH. split.
    + intros [[r ->] | [pre [post ->]]].
      * by exists "", r.
      * by exists (String c pre), post.
    + intros [pre [post H]]. destruct pre as [|d pre].
      * left. by exists post.
      * right. injection H as -> ->. by exists pre, post.
Qed.

Lemma includes_false (sub s : string) :
  JsString.includes sub s = false <-> ~ exists pre post, s = pre +:+ sub +:+ post.
Proof. rewrite <- includes_spec. by destruct (JsString.includes sub s). Qed.

Lemma startsWith_false (p s : string) :
  JsString.startsWith p s = false <-> ~ exists r, s = p +:+ r.
Proof. rewrite <- startsWith_spec. by destruct (JsString.startsWith p s). Qed.

End StringFacts.

(** ** C4: detectCategory *)

(** C4, as stated, fails: the MIME type "application/x-stylesheet" starts with
    neither "image/" nor "video/" and contains none of "pdf", "text", "word",
    "presentation", "spreadsheet", yet [detectCategory] answers [documents]
    and not [others], because the code looks for "sheet". *)
Lemma detectCategory_sheet_counterexample :
  ~ StartsWith "image/" "application/x-stylesheet" /\
  ~ StartsWith "video/" "application/x-stylesheet" /\
  Forall (fun m => ~ Contains m "application/x-stylesheet") specMarkers /\
  detectCategory "application/x-stylesheet" = documents /\
  detectCategory "application/x-stylesheet" <> others.
Proof.
  split; [by apply startsWith_false |].
  split; [by apply startsWith_false |].
  split; [| split; [reflexivity | discriminate]].
  unfold specMarkers. repeat constructor; by apply includes_false.
Qed.

Lemma detectCategory_cases (m : string) :
  (detectCategory m = images <-> StartsWith "image/" m) /\
  (detectCategory m = videos <-> StartsWith "video/" m) /\
  (detectCategory m = documents <->
     ~ StartsWith "image/" m /\ ~ StartsWith "video/" m /\
     Exists (fun k => Contains k m) documentMarkers) /\
  (detectCategory m = others <->
     ~ StartsWith "image/" m /\ ~ StartsWith "video/" m /\
     Forall (fun k => ~ Contains k m) documentMarkers).
Proof.
  assert (Hex : Exists (fun k => Contains k m) documentMarkers <->
            JsString.includes "pdf" m || JsString.includes "text" m
            || JsString.includes "word" m || JsString.includes "presentation" m
            || JsString.includes "sheet" m = true).
  { unfold documentMarkers. rewrite !Exists_cons, Exists_nil.
    rewrite !orb_true_iff, !includes_spec. unfold Contains. tauto. }
  assert (Hall : Forall (fun k => ~ Contains k m) documentMarkers <->
            JsString.includes "pdf" m || JsString.includes "text" m
            || JsString.includes "word" m || JsString.includes "presentation" m
            || JsString.includes "sheet" m = false).
  { rewrite <- not_true_iff_false, <- Hex, <- Forall_Exists_neg. done. }
  assert (Hvi : StartsWith "video/" m -> ~ StartsWith "image/" m).
  { intros [r ->] [r' Hr']. discriminate. }
  unfold detectCategory.
  pose proof (startsWith_spec "image/" m) as Hi.
  pose proof (startsWith_spec "video/" m) as Hv.
  fold (StartsWith "image/" m) in Hi. fold (StartsWith "video/" m) in Hv.
  destruct (JsString.startsWith "image/" m);
    destruct (JsString.startsWith "video/" m);
    destruct (JsString.includes "pdf" m || JsString.includes "text" m
              || JsString.includes "word" m || JsString.includes "presentation" m
              || JsString.includes "sheet" m);
    repeat split; try reflexivity; try discriminate; try tauto;
    try (intros; exfalso; intuition congruence);
    try (intros _; intuition congruence).
Qed.

(** C4 (amended): [detectCategory] is a function of the MIME type alone: a
    type starting with "image/" is [images]; one starting with "video/" is
    [videos]; any other type containing one of "pdf", "text", "word",
    "presentation", "sheet" is [documents]; every remaining type is [others].
    So "image/png" is [images], "application/pdf" is [documents], "audio/mpeg"
    is [others], and equal inputs give equal outputs. *)
Theorem detectCategory_characterisation :
  forall mimeType : string,
    (detectCategory mimeType = images <-> StartsWith "image/" mimeType) /\
    (detectCategory mimeType = videos <-> StartsWith "video/" mimeType) /\
    (detectCategory mimeType = documents <->
       ~ StartsWith "image/" mimeType /\ ~ StartsWith "video/" mimeType /\
       Exists (fun m => Contains m mimeType) documentMarkers) /\
    (detectCategory mimeType = others <->
       ~ StartsWith "image/" mimeType /\ ~ StartsWith "video/" mimeType /\
       Forall (fun m => ~ Contains m mimeType) documentMarkers) /\
    detectCategory "image/png" = images /\
    detectCategory "application/pdf" = documents /\
    detectCategory "audio/mpeg" = others /\
    (forall other : string, mimeType = other ->
       detectCategory mimeType = detectCategory other).
Proof.
  intros m. destruct (detectCategory_cases m) as (H1 & H2 & H3 & H4).
  split; [exact H1 |]. split; [exact H2 |].
  split; [exact H3 |]. split; [exact H4 |].
  do 3 (split; [reflexivity |]).
  by intros other <-.
Qed.

(** ** The upload loop *)

Section Upload.

Context (E : Env) (u : User.t).

Lemma uploadLoop_cons_skip f rest acc w :
  (JsFile.size f > MAX_SIZE)%Z ->
  uploadLoop E u (f :: rest) acc w = uploadLoop E u rest acc w.
Proof.
  intros H. cbn [uploadLoop].
  destruct (Z.gtb_spec (JsFile.size f) MAX_SIZE); [done | lia].
Qed.

Lemma uploadLoop_cons_ok f rest acc w :
  (JsFile.size f <= MAX_SIZE)%Z ->
  uploadLoop E u (f :: rest) acc w =
    let beeFile := makeBeeFile u (randomId E (draws w)) f in
    if requestFails E (requests w)
    then (Rejected IDBRequestError,
          mkWorld (idb w) (metaDoc w) (user w) (files w) (uploadStatus w)
                  (S (draws w)) (S (requests w)))
    else uploadLoop E u rest (acc ++ [beeFile])
           (mkWorld (<[BeeFile.blobId beeFile := f]> (idb w)) (metaDoc w) (user w)
                    (files w) (uploadStatus w) (S (draws w)) (S (requests w))).
Proof.
  intros H. cbn [uploadLoop].
  destruct (Z.gtb_spec (JsFile.size f) MAX_SIZE); [lia |].
  unfold bind, freshId, saveFileBlob, idbRequest. cbn.
  by destruct (requestFails E (requests w)).
Qed.

Lemma accepted_cons_skip f rest :
  (JsFile.size f > MAX_SIZE)%Z -> accepted (f :: rest) = accepted rest.
Proof.
  intros H. unfold accepted. cbn [List.filter].
  destruct (Z.leb_spec (JsFile.size f) MAX_SIZE); [lia | done].
Qed.

Lemma accepted_cons_ok f rest :
  (JsFile.size f <= MAX_SIZE)%Z -> accepted (f :: rest) = f :: accepted rest.
Proof.
  intros H. unfold accepted. cbn [List.filter].
  destruct (Z.leb_spec (JsFile.size f) MAX_SIZE); [done | lia].
Qed.

Lemma accepted_sizes fs : Forall (fun f => (JsFile.size f <= MAX_SIZE)%Z) (accepted fs).
Proof.
  induction fs as [|f fs IH]; [constructor |].
  destruct (Z.le_gt_cases (JsFile.size f) MAX_SIZE) as [H | H].
  - rewrite accepted_cons_ok by done. by constructor.
  - rewrite accepted_cons_skip by lia. done.
Qed.

Lemma accepted_idem fs : accepted (accepted fs) = accepted fs.
Proof.
  induction fs as [|f fs IH]; [done |].
  destruct (Z.le_gt_cases (JsFile.size f) MAX_SIZE) as [H | H].
  - rewrite !accepted_cons_ok by done. by rewrite IH.
  - rewrite accepted_cons_skip by lia. done.
Qed.

(** Oversized files leave no trace in the loop. *)
Lemma uploadLoop_accepted fs acc w :
  uploadLoop E u fs acc w = uploadLoop E u (accepted fs) acc w.
Proof.
  revert acc w. induction fs as [|f fs IH]; intros acc w; [done |].
  destruct (Z.le_gt_cases (JsFile.size f) MAX_SIZE) as [H | H].
  - rewrite accepted_cons_ok by done. rewrite !uploadLoop_cons_ok by done.
    cbv zeta. destruct (requestFails E (requests w)); [done | apply IH].
  - rewrite accepted_cons_skip by lia. rewrite uploadLoop_cons_skip by lia.
    apply IH.
Qed.

(** All requests of the batch succeed: every accepted file is written and
    recorded. *)
Lemma uploadLoop_ok fs acc w :
  Forall (fun f => (JsFile.size f <= MAX_SIZE)%Z) fs ->
  (forall j, (j < length fs)%nat -> requestFails E (requests w + j) = false) ->
  uploadLoop E u fs acc w =
    (Resolved (acc ++ map fst (batch E u (draws w) fs))%list,
     mkWorld (storeAll (idb w) (batch E u (draws w) fs)) (metaDoc w) (user w)
             (files w) (uploadStatus w)
             (draws w + length fs) (requests w + length fs)).
Proof.
  intros Hs. revert acc w. induction Hs as [|f fs Hf Hs IH]; intros acc w Hok.
  - cbn. rewrite app_nil_r, !Nat.add_0_r. by destruct w.
  - rewrite uploadLoop_cons_ok by done. cbv zeta.
    pose proof (Hok 0%nat) as H0. rewrite Nat.add_0_r in H0.
    rewrite H0 by (cbn; lia).
    rewrite IH.
    + cbn [batch map fst draws requests idb metaDoc user files uploadStatus
           length storeAll fold_left snd].
      rewrite <- app_assoc. cbn [app].
      by rewrite !Nat.add_succ_r.
    + intros j Hj. cbn [requests]. rewrite Nat.add_succ_l, <- Nat.add_succ_r.
      apply Hok. cbn. lia.
Qed.

(** The request of accepted file number [k] is the first to fail: the loop
    throws there, the [k] earlier blobs stay written. *)
Lemma uploadLoop_fail fs acc w k :
  Forall (fun f => (JsFile.size f <= MAX_SIZE)%Z) fs ->
  (k < length fs)%nat ->
  requestFails E (requests w + k) = true ->
  (forall j, (j < k)%nat -> requestFails E (requests w + j) = false) ->
  uploadLoop E u fs acc w =
    (Rejected IDBRequestError,
     mkWorld (storeAll (idb w) (batch E u (draws w) (take k fs))) (metaDoc w)
             (user w) (files w) (uploadStatus w)
             (draws w + S k) (requests w + S k)).
Proof.
  intros Hs. revert acc w k.
  induction Hs as [|f fs Hf Hs IH]; intros acc w k Hk Hfail Hok.
  - cbn in Hk. lia.
  - rewrite uploadLoop_cons_ok by done. cbv zeta. destruct k as [|k].
    + rewrite Nat.add_0_r in Hfail. rewrite Hfail. cbn.
      by rewrite !Nat.add_1_r.
    + pose proof (Hok 0%nat) as H0. rewrite Nat.add_0_r in H0.
      rewrite H0 by lia.
      rewrite (IH _ _ k).
      * cbn [batch take draws requests idb metaDoc user files uploadStatus
             storeAll fold_left fst snd].
        by rewrite !(Nat.add_succ_r _ (S k)).
      * cbn in Hk. lia.
      * cbn [requests]. by rewrite Nat.add_succ_l, <- Nat.add_succ_r.
      * intros j Hj. cbn [requests]. rewrite Nat.add_succ_l, <- Nat.add_succ_r.
        apply Hok. lia.
Qed.

(** Either no request of a run of [n] fails, or there is a first one that
    does. *)
Lemma first_failure (r n : nat) :
  (forall j, (j < n)%nat -> requestFails E (r + j) = false) \/
  (exists k, (k < n)%nat /\ requestFails E (r + k) = true /\
             forall j, (j < k)%nat -> requestFails E (r + j) = false).
Proof.
  induction n as [|n IH].
  - left. intros j Hj. lia.
  - destruct IH as [IH | (k & Hk & Hf & Hlt)].
    + destruct (requestFails E (r + n)) eqn:Hn.
      * right. exists n. eauto.
      * left. intros j Hj. destruct (decide (j = n)) as [-> | ?]; [done |].
        apply IH. lia.
    + right. exists k. split; [lia | done].
Qed.

End Upload.

(** ** Facts about [batch] and [storeAll] *)

Section BatchFacts.

Context (E : Env) (u : User.t).

Lemma batch_length d fs : length (batch E u d fs) = length fs.
Proof. revert d. induction fs as [|f fs IH]; intros d; cbn; [done | by rewrite IH]. Qed.

Lemma batch_lookup d fs j f :
  fs !! j = Some f ->
  batch E u d fs !! j = Some (makeBeeFile u (randomId E (d + j)) f, f).
Proof.
  revert d j. induction fs as [|g fs IH]; intros d j H; [done |].
  destruct j as [|j]; cbn [batch].
  - injection H as ->. by rewrite Nat.add_0_r.
  - rewrite Nat.add_succ_r. apply (IH (S d) j H).
Qed.

Lemma batch_ids d fs :
  map (fun p => BeeFile.id (fst p)) (batch E u d fs) =
  map (randomId E) (seq d (length fs)).
Proof.
  revert d. induction fs as [|f fs IH]; intros d; cbn; [done |].
  by rewrite IH.
Qed.

Lemma batch_keys d fs :
  map (fun p => BeeFile.blobId (fst p)) (batch E u d fs) =
  map (fun i => "blob_" +:+ i) (map (randomId E) (seq d (length fs))).
Proof.
  revert d. induction fs as [|f fs IH]; intros d; cbn [batch map length seq fst];
    [done |].
  by rewrite IH.
Qed.

Lemma batch_owner d fs r :
  In r (map fst (batch E u d fs)) -> BeeFile.ownerId r = User.id u.
Proof.
  revert d. induction fs as [|f fs IH]; intros d; cbn; [done |].
  intros [<- | H]; [done | eauto].
Qed.

Lemma storeAll_cons m p b :
  storeAll m (p :: b) = storeAll (<[BeeFile.blobId (fst p) := snd p]> m) b.
Proof. done. Qed.

(** Nothing is ever removed by the writes of a batch. *)
Lemma storeAll_keeps m b key :
  is_Some (m !! key) -> is_Some (storeAll m b !! key).
Proof.
  revert m. induction b as [|p b IH]; intros m H; [done |].
  rewrite storeAll_cons. apply IH. rewrite lookup_insert.
  case_decide; [by eexists | done].
Qed.

Lemma storeAll_written m b p :
  In p b -> is_Some (storeAll m b !! BeeFile.blobId (fst p)).
Proof.
  revert m. induction b as [|q b IH]; intros m; [done |].
  rewrite storeAll_cons. intros [-> | H].
  - apply storeAll_keeps. rewrite lookup_insert_eq. by eexists.
  - by apply IH.
Qed.

Lemma storeAll_other m b key :
  ~ In key (map (fun p => BeeFile.blobId (fst p)) b) ->
  storeAll m b !! key = m !! key.
Proof.
  revert m. induction b as [|q b IH]; intros m H; [done |].
  rewrite storeAll_cons. cbn [map In] in H.
  rewrite IH by tauto. apply lookup_insert_ne. tauto.
Qed.

(** With pairwise distinct keys every record finds its own file. *)
Lemma storeAll_lookup m b j r f :
  NoDup (map (fun p => BeeFile.blobId (fst p)) b) ->
  b !! j = Some (r, f) ->
  storeAll m b !! BeeFile.blobId r = Some f.
Proof.
  revert m j. induction b as [|q b IH]; intros m j Hnd H; [done |].
  cbn [map] in Hnd. apply NoDup_cons in Hnd as [Hq Hnd].
  rewrite list_elem_of_In in Hq.
  rewrite storeAll_cons. destruct j as [|j]; cbn in H.
  - injection H as ->. cbn [fst snd] in *. rewrite storeAll_other by done.
    apply lookup_insert_eq.
  - by apply (IH _ j).
Qed.

End BatchFacts.

(** ** [handleUpload] as a whole *)

Section HandleUpload.

Context (E : Env) (u : User.t).

Lemma handleUpload_accepted fs w :
  handleUpload E fs w = handleUpload E (accepted fs) w.
Proof.
  unfold handleUpload. destruct (user w) as [v|]; [| done].
  unfold bind, tryCatch, modify. cbn.
  by rewrite (uploadLoop_accepted E v fs), (uploadLoop_accepted E v (accepted fs)),
    accepted_idem.
Qed.

Lemma handleUpload_success fs w :
  user w = Some u ->
  (forall j, (j < length (accepted fs))%nat ->
             requestFails E (requests w + j) = false) ->
  handleUpload E fs w =
    (Resolved tt,
     let b := batch E u (draws w) (accepted fs) in
     mkWorld (storeAll (idb w) b) (Some (getMetadata w ++ map fst b)%list)
             (Some u) (files w ++ map fst b)%list SUCCESS
             (draws w + length (accepted fs))
             (requests w + length (accepted fs))).
Proof.
  intros Hu Hok. unfold handleUpload. rewrite Hu.
  unfold bind, tryCatch, modify, get, saveMetadata. cbn.
  rewrite uploadLoop_accepted.
  rewrite uploadLoop_ok; [| apply accepted_sizes | done].
  cbn. by rewrite Hu.
Qed.

Lemma handleUpload_failure fs w k :
  user w = Some u ->
  (k < length (accepted fs))%nat ->
  requestFails E (requests w + k) = true ->
  (forall j, (j < k)%nat -> requestFails E (requests w + j) = false) ->
  handleUpload E fs w =
    (Resolved tt,
     mkWorld (storeAll (idb w) (batch E u (draws w) (take k (accepted fs))))
             (metaDoc w) (Some u) (files w) ERROR
             (draws w + S k) (requests w + S k)).
Proof.
  intros Hu Hk Hf Hok. unfold handleUpload. rewrite Hu.
  unfold bind, tryCatch, modify, get, saveMetadata. cbn.
  rewrite uploadLoop_accepted.
  rewrite (uploadLoop_fail E u _ _ _ k); [| apply accepted_sizes | done..].
  cbn. by rewrite Hu.
Qed.

End HandleUpload.

Lemma NoDup_map_range {A} (g : nat -> A) (d n : nat) :
  (forall i j, (i < n)%nat -> (j < n)%nat -> g (d + i)%nat = g (d + j)%nat -> i = j) ->
  NoDup (map g (seq d n)).
Proof.
  intros Hinj. change (map g (seq d n)) with (g <$> seq d n).
  apply NoDup_fmap_2_strong; [| apply NoDup_seq].
  intros x y Hx Hy Hg. apply elem_of_seq in Hx, Hy.
  assert (x - d = y - d)%nat as Hxy; [| lia].
  apply Hinj; [lia | lia |].
  by replace (d + (x - d))%nat with x by lia;
     replace (d + (y - d))%nat with y by lia.
Qed.

Lemma upload_success_no_failure (E : Env) (u : User.t) fs w :
  user w = Some u ->
  uploadStatus (snd (handleUpload E fs w)) = SUCCESS ->
  forall j, (j < length (accepted fs))%nat ->
            requestFails E (requests w + j) = false.
Proof.
  intros Hu Hs.
  destruct (first_failure E (requests w) (length (accepted fs)))
    as [Hok | (k & Hk & Hf & Hlt)]; [done |].
  rewrite (handleUpload_failure E u fs w k) in Hs by done. discriminate.
Qed.

(** ** C3: a failing blob write *)




(** ** C5: the size limit *)

Lemma handleUpload_nil (E : Env) (u : User.t) (w : World) :
  user w = Some u ->
  handleUpload E [] w =
    (Resolved tt,
     mkWorld (idb w) (Some (getMetadata w)) (Some u) (files w) SUCCESS
             (draws w) (requests w)).
Proof.
  intros Hu. rewrite (handleUpload_success E u) by (done || (cbn; lia)).
  cbn. by rewrite !app_nil_r, !Nat.add_0_r.
Qed.

Lemma accepted_elem (fs : list JsFile.t) (f : JsFile.t) :
  f ∈ accepted fs <-> f ∈ fs /\ (JsFile.size f <= 300 * 1024 * 1024)%Z.
Proof.
  unfold accepted. rewrite !list_elem_of_In, filter_In, Z.leb_le.
  unfold MAX_SIZE. done.
Qed.

(** C5: a file is skipped by the upload exactly when its size exceeds
    300 * 1024 * 1024 bytes, whatever the batch it is in.  The files that
    pass the size test are those of at most that size; a batch behaves as the
    batch of these files, in their order: blob writes are requested for them
    only, one after the other, and when none of the writes fails the upload
    succeeds, and on success each of them, and nothing else, has been stored
    and recorded.  An oversized file alone behaves as the empty batch (no
    error, no request to the blob store, no record); a file within the limit
    always causes a blob write.  300 MiB itself is accepted, one byte more is
    not. *)
Theorem upload_skips_exactly_oversized
    (E : Env) (u : User.t) (fs : list JsFile.t) (w : World) :
  user w = Some u ->
  (let w' := snd (handleUpload E fs w) in
   let b := batch E u (draws w) (accepted fs) in
   (forall f, f ∈ accepted fs <-> f ∈ fs /\ (JsFile.size f <= 300 * 1024 * 1024)%Z) /\
   handleUpload E fs w = handleUpload E (accepted fs) w /\
   ((requests w < requests w')%nat -> accepted fs <> []) /\
   (requests w' <= requests w + length (accepted fs))%nat /\
   (draws w' - draws w = requests w' - requests w)%nat /\
   ((forall j, (j < length (accepted fs))%nat ->
               requestFails E (requests w + j) = false) ->
    uploadStatus w' = SUCCESS) /\
   (uploadStatus w' = SUCCESS ->
      requests w' = (requests w + length (accepted fs))%nat /\
      idb w' = storeAll (idb w) b /\
      getMetadata w' = (getMetadata w ++ map fst b)%list /\
      files w' = (files w ++ map fst b)%list /\
      length (map fst b) = length (accepted fs) /\
      forall j f, accepted fs !! j = Some f ->
        map fst b !! j = Some (makeBeeFile u (randomId E (draws w + j)) f) /\
        is_Some (idb w' !! ("blob_" +:+ randomId E (draws w + j))))) /\
  (forall f, (JsFile.size f > 300 * 1024 * 1024)%Z ->
     let w' := snd (handleUpload E [f] w) in
     accepted [f] = [] /\
     handleUpload E [f] w = handleUpload E [] w /\
     fst (handleUpload E [f] w) = Resolved tt /\
     uploadStatus w' = SUCCESS /\
     idb w' = idb w /\
     getMetadata w' = getMetadata w /\
     files w' = files w /\
     requests w' = requests w /\
     draws w' = draws w) /\
  (forall f, (JsFile.size f <= 300 * 1024 * 1024)%Z ->
     let w' := snd (handleUpload E [f] w) in
     let r := makeBeeFile u (randomId E (draws w)) f in
     accepted [f] = [f] /\
     handleUpload E [f] w <> handleUpload E [] w /\
     requests w' = S (requests w) /\
     (requestFails E (requests w) = false ->
        uploadStatus w' = SUCCESS /\
        idb w' !! BeeFile.blobId r = Some f /\
        getMetadata w' = (getMetadata w ++ [r])%list /\
        files w' = (files w ++ [r])%list)) /\
  (forall f, JsFile.size f = (300 * 1024 * 1024)%Z -> accepted [f] = [f]) /\
  (forall f, JsFile.size f = (300 * 1024 * 1024 + 1)%Z -> accepted [f] = []).
Proof.
  intros Hu. split; [| split; [| split; [| split]]].
  - cbv zeta. split; [apply accepted_elem |].
    split; [apply handleUpload_accepted |].
    destruct (first_failure E (requests w) (length (accepted fs)))
      as [Hok | (k & Hk & Hf & Hlt)].
    + rewrite (handleUpload_success E u fs w Hu Hok).
      cbn [snd requests draws uploadStatus idb files].
      split.
      { intros Hlt Hnil. rewrite Hnil in Hlt. cbn in Hlt. lia. }
      split; [lia |]. split; [lia |]. split; [done |]. intros _.
      split; [done |]. split; [done |]. split; [done |]. split; [done |].
      split; [rewrite length_map; apply batch_length |].
      intros j f Hj.
      pose proof (batch_lookup E u (draws w) _ _ _ Hj) as Hb.
      split; [by rewrite list_lookup_fmap, Hb |].
      apply list_elem_of_lookup_2, list_elem_of_In in Hb.
      apply (storeAll_written (idb w)) in Hb. exact Hb.
    + rewrite (handleUpload_failure E u fs w k Hu Hk Hf Hlt).
      cbn [snd requests draws uploadStatus idb files].
      split.
      { intros _ Hnil. rewrite Hnil in Hk. cbn in Hk. lia. }
      split; [lia |]. split; [lia |]. split.
      { intros Hok. rewrite Hok in Hf by done. discriminate Hf. }
      intros Hs. discriminate Hs.
  - intros f Hf. cbv zeta.
    assert (Ha : accepted [f] = []) by (apply accepted_cons_skip; exact Hf).
    rewrite (handleUpload_accepted E [f]), Ha, (handleUpload_nil E u) by done.
    cbn. done.
  - intros f Hf. cbv zeta.
    assert (Ha : accepted [f] = [f]) by (apply accepted_cons_ok; exact Hf).
    split; [done |].
    rewrite (handleUpload_nil E u) by done.
    destruct (requestFails E (requests w)) eqn:Hr.
    + rewrite (handleUpload_failure E u [f] w 0); rewrite ?Ha, ?Nat.add_0_r;
        try done; try (cbn; lia).
      cbn. split; [| split; [lia | done]].
      intros H. injection H. lia.
    + rewrite (handleUpload_success E u [f] w); rewrite ?Ha; try done.
      * cbn. split; [intros H; injection H; lia |].
        split; [lia |]. intros _. split; [done |].
        split; [apply lookup_insert_eq | done].
      * intros j Hj. cbn in Hj. replace j with 0%nat by lia.
        by rewrite Nat.add_0_r.
  - intros f Hf. apply accepted_cons_ok. unfold MAX_SIZE. lia.
  - intros f Hf. apply accepted_cons_skip. unfold MAX_SIZE. lia.
Qed.

Lemma upload_skips_exactly_oversized_witness :
  let over := JsFile.mk "over.bin" "" (300 * 1024 * 1024 + 1) 0 [] in
  let limit := JsFile.mk "limit.bin" "" (300 * 1024 * 1024) 0 [] in
  let w' := snd (handleUpload calmEnv [samplePng; over; limit; samplePdf] loggedIn) in
  user loggedIn = Some sampleUser /\
  accepted [samplePng; over; limit; samplePdf] = [samplePng; limit; samplePdf] /\
  uploadStatus w' = SUCCESS /\
  requests w' = 3%nat /\
  getMetadata w' = [makeBeeFile sampleUser "0" samplePng;
                    makeBeeFile sampleUser "1" limit;
                    makeBeeFile sampleUser "2" samplePdf] /\
  accepted [limit] = [limit] /\
  accepted [over] = [] /\
  handleUpload calmEnv [over] loggedIn = handleUpload calmEnv [] loggedIn.
Proof.
  cbv zeta.
  assert (H1 : user loggedIn = Some sampleUser) by reflexivity.
  destruct (upload_skips_exactly_oversized calmEnv sampleUser
              [samplePng; JsFile.mk "over.bin" "" (300 * 1024 * 1024 + 1) 0 [];
               JsFile.mk "limit.bin" "" (300 * 1024 * 1024) 0 []; samplePdf]
              loggedIn H1)
    as (Hbatch & Hover & _ & Hlimit & Hone).
  cbv zeta in Hbatch. destruct Hbatch as (_ & _ & _ & _ & _ & Hsucc & Hall).
  assert (Hs : uploadStatus (snd (handleUpload calmEnv
              [samplePng; JsFile.mk "over.bin" "" (300 * 1024 * 1024 + 1) 0 [];
               JsFile.mk "limit.bin" "" (300 * 1024 * 1024) 0 []; samplePdf]
              loggedIn)) = SUCCESS).
  { apply Hsucc. intros j _. reflexivity. }
  destruct (Hall Hs) as (Hreq & _ & Hmeta & _).
  split; [exact H1 |]. split; [vm_compute; reflexivity |].
  split; [exact Hs |].
  split; [etransitivity; [exact Hreq | vm_compute; reflexivity] |].
  split; [etransitivity; [exact Hmeta | vm_compute; reflexivity] |].
  split; [exact (Hlimit (JsFile.mk "limit.bin" "" (300 * 1024 * 1024) 0 []) eq_refl) |].
  split; [exact (Hone (JsFile.mk "over.bin" "" (300 * 1024 * 1024 + 1) 0 []) eq_refl) |].
  apply (Hover (JsFile.mk "over.bin" "" (300 * 1024 * 1024 + 1) 0 [])).
  vm_compute. reflexivity.
Defined.

(** ** C6: upload, then list and fetch *)

Lemma filter_owner_all (uid : string) (l : list BeeFile.t) :
  (forall r, In r l -> BeeFile.ownerId r = uid) ->
  List.filter (fun f => String.eqb (BeeFile.ownerId f) uid) l = l.
Proof.
  induction l as [|r l IH]; intros H; [done |].
  cbn. rewrite (H r) by (by left). rewrite String.eqb_refl.
  rewrite IH; [done |]. intros r' Hr'. apply H. by right.
Qed.

(** C6, as stated, fails: with a random source that repeats an id, a
    successful upload of two files stores both under one blob key; the listing
    returns both records, and the blob fetched for the first record is the
    second file. *)
Lemma upload_roundtrip_counterexample :
  let w' := snd (handleUpload collidingEnv [samplePng; samplePdf] loggedIn) in
  let r1 := makeBeeFile sampleUser "" samplePng in
  let r2 := makeBeeFile sampleUser "" samplePdf in
  uploadStatus w' = SUCCESS /\
  listFiles (User.id sampleUser) w' = [r1; r2] /\
  fst (getFileBlob collidingEnv (BeeFile.blobId r1) w') = Resolved (Some samplePdf) /\
  JsFile.content samplePdf <> JsFile.content samplePng.
Proof.
  cbv zeta. split; [by vm_compute |]. split; [by vm_compute |].
  split; [by vm_compute | discriminate].
Qed.

(** C6 (amended): after a successful upload in which the random ids drawn for
    the batch are pairwise distinct, the listing of the owner is the previous
    listing followed by one record per accepted file, in order, with pairwise
    distinct ids; and the blob fetched under each new record's blob key is the
    very file that was uploaded, bytes included. *)
Theorem upload_list_roundtrip
    (E : Env) (u : User.t) (fs : list JsFile.t) (w : World) :
  user w = Some u ->
  uploadStatus (snd (handleUpload E fs w)) = SUCCESS ->
  (forall i j, (i < length (accepted fs))%nat -> (j < length (accepted fs))%nat ->
     randomId E (draws w + i) = randomId E (draws w + j) -> i = j) ->
  let w' := snd (handleUpload E fs w) in
  let recs := map fst (batch E u (draws w) (accepted fs)) in
  listFiles (User.id u) w' = (listFiles (User.id u) w ++ recs)%list /\
  length recs = length (accepted fs) /\
  NoDup (map BeeFile.id recs) /\
  forall j f, accepted fs !! j = Some f ->
    exists r,
      recs !! j = Some r /\
      r = makeBeeFile u (randomId E (draws w + j)) f /\
      idb w' !! BeeFile.blobId r = Some f /\
      (requestFails E (requests w') = false ->
       fst (getFileBlob E (BeeFile.blobId r) w') = Resolved (Some f) /\
       JsFile.content <$> idb w' !! BeeFile.blobId r = Some (JsFile.content f)).
Proof.
  intros Hu Hs Hinj. cbv zeta.
  pose proof (upload_success_no_failure E u fs w Hu Hs) as Hok.
  rewrite (handleUpload_success E u fs w Hu Hok). cbn [snd].
  set (b := batch E u (draws w) (accepted fs)).
  assert (Hids : map BeeFile.id (map fst b) =
                 map (randomId E) (seq (draws w) (length (accepted fs)))).
  { rewrite <- (batch_ids E u). by rewrite map_map. }
  assert (Hnd : NoDup (map BeeFile.id (map fst b))).
  { rewrite Hids. by apply NoDup_map_range. }
  assert (Hkeys : NoDup (map (fun p => BeeFile.blobId (fst p)) b)).
  { subst b. rewrite (batch_keys E u), <- Hids.
    change (NoDup ((fun i => "blob_" +:+ i) <$> map BeeFile.id
                     (map fst (batch E u (draws w) (accepted fs))))).
    apply NoDup_fmap_2; [| done].
    intros x y Hxy. by simplify_eq/=. }
  split.
  { unfold listFiles, getMetadata. cbn [metaDoc].
    rewrite List.filter_app. f_equal.
    apply filter_owner_all. intros r Hr. by apply (batch_owner E u) in Hr. }
  split; [rewrite length_map; apply batch_length |].
  split; [done |].
  intros j f Hj.
  pose proof (batch_lookup E u (draws w) _ _ _ Hj) as Hb. fold b in Hb.
  exists (makeBeeFile u (randomId E (draws w + j)) f).
  split; [by rewrite list_lookup_fmap, Hb |].
  split; [done |].
  pose proof (storeAll_lookup (idb w) b j _ _ Hkeys Hb) as Hl.
  cbn [idb]. split; [done |].
  intros Hr. unfold getFileBlob, idbRequest. cbn [requests] in *.
  rewrite Hr. unfold setRequests. cbn [fst idb]. by rewrite Hl.
Qed.

Lemma upload_list_roundtrip_witness :
  let w' := snd (handleUpload calmEnv [samplePng; samplePdf] loggedIn) in
  user loggedIn = Some sampleUser /\
  uploadStatus w' = SUCCESS /\
  listFiles (User.id sampleUser) w' =
    (listFiles (User.id sampleUser) loggedIn ++
     map fst (batch calmEnv sampleUser (draws loggedIn)
                (accepted [samplePng; samplePdf])))%list /\
  fst (getFileBlob calmEnv "blob_1" w') = Resolved (Some samplePdf).
Proof.
  assert (H1 : user loggedIn = Some sampleUser) by reflexivity.
  assert (H2 : uploadStatus
                 (snd (handleUpload calmEnv [samplePng; samplePdf] loggedIn))
               = SUCCESS) by (vm_compute; reflexivity).
  assert (H3 : forall i j,
             (i < length (accepted [samplePng; samplePdf]))%nat ->
             (j < length (accepted [samplePng; samplePdf]))%nat ->
             randomId calmEnv (draws loggedIn + i) =
             randomId calmEnv (draws loggedIn + j) -> i = j).
  { assert (Hlen : length (accepted [samplePng; samplePdf]) = 2%nat)
      by (vm_compute; reflexivity).
    rewrite Hlen. intros i j Hi Hj.
    destruct i as [|[|i]]; destruct j as [|[|j]]; try lia;
      vm_compute; intros H; first [reflexivity | discriminate H]. }
  pose proof (upload_list_roundtrip calmEnv sampleUser
                [samplePng; samplePdf] loggedIn H1 H2 H3) as H.
  cbv zeta in H. destruct H as (Hl & _ & _ & Hf).
  cbv zeta. split; [exact H1 |]. split; [exact H2 |]. split; [exact Hl |].
  destruct (Hf 1%nat samplePdf eq_refl) as (r & _ & -> & _ & Hg).
  exact (proj1 (Hg eq_refl)).
Defined.

(** ** [handleDelete] *)

Section HandleDelete.

Context (E : Env).

Lemma handleDelete_cancel ident w :
  handleDelete E false ident w = (Resolved tt, w).
Proof. done. Qed.

Lemma handleDelete_absent confirmed ident w :
  List.find (fun f => String.eqb (BeeFile.id f) ident) (files w) = None ->
  handleDelete E confirmed ident w = (Resolved tt, w).
Proof.
  intros H. unfold handleDelete. rewrite H. by destruct confirmed.
Qed.

Lemma handleDelete_found_fail ident w f :
  List.find (fun f => String.eqb (BeeFile.id f) ident) (files w) = Some f ->
  requestFails E (requests w) = true ->
  handleDelete E true ident w =
    (Rejected IDBRequestError,
     mkWorld (idb w) (metaDoc w) (user w) (files w) (uploadStatus w)
             (draws w) (S (requests w))).
Proof.
  intros H Hr. unfold handleDelete. rewrite H. cbn [negb].
  unfold bind, deleteFileBlob, idbRequest. by rewrite Hr.
Qed.

Lemma handleDelete_found_ok ident w f :
  List.find (fun f => String.eqb (BeeFile.id f) ident) (files w) = Some f ->
  requestFails E (requests w) = false ->
  handleDelete E true ident w =
    (Resolved tt,
     mkWorld (delete (BeeFile.blobId f) (idb w))
       (Some (List.filter (fun f => negb (String.eqb (BeeFile.id f) ident))
                (getMetadata w)))
       (user w)
       (List.filter (fun f => negb (String.eqb (BeeFile.id f) ident)) (files w))
       (uploadStatus w) (draws w) (S (requests w))).
Proof.
  intros H Hr. unfold handleDelete. rewrite H. cbn [negb].
  unfold bind, deleteFileBlob, idbRequest. by rewrite Hr.
Qed.

Lemma find_filter_removed ident (l : list BeeFile.t) :
  List.find (fun f => String.eqb (BeeFile.id f) ident)
    (List.filter (fun f => negb (String.eqb (BeeFile.id f) ident)) l) = None.
Proof.
  induction l as [|r l IH]; [done |]. cbn.
  destruct (String.eqb (BeeFile.id r) ident) eqn:Hr; cbn; [done |].
  by rewrite Hr.
Qed.

Lemma filter_ids_elem ident (l : list BeeFile.t) i :
  i ∈ map BeeFile.id
        (List.filter (fun f => negb (String.eqb (BeeFile.id f) ident)) l) ->
  i ∈ map BeeFile.id l /\ i <> ident.
Proof.
  induction l as [|r l IH]; cbn; [by intros ?%elem_of_nil |].
  destruct (String.eqb (BeeFile.id r) ident) eqn:Hr; cbn.
  - intros H. destruct (IH H). split; [by right | done].
  - intros [Hi | H]%elem_of_cons.
    + subst i. split; [by left |]. intros Heq.
      apply String.eqb_eq in Heq. congruence.
    + destruct (IH H). split; [by right | done].
Qed.

Lemma filter_ids_NoDup ident (l : list BeeFile.t) :
  NoDup (map BeeFile.id l) ->
  NoDup (map BeeFile.id
           (List.filter (fun f => negb (String.eqb (BeeFile.id f) ident)) l)).
Proof.
  induction l as [|r l IH]; cbn; [done |].
  intros [Hr Hnd]%NoDup_cons.
  destruct (String.eqb (BeeFile.id r) ident); cbn; [by apply IH |].
  apply NoDup_cons. split; [| by apply IH].
  intros H. by apply filter_ids_elem in H as [H _].
Qed.

End HandleDelete.

(** ** C1: a failing blob deletion *)

(** C1, as stated, fails: when the blob store rejects the deletion, the
    handler rejects too and never reaches the metadata: the record is still in
    the metadata document. *)
Lemma delete_failure_counterexample :
  let res := handleDelete (failingEnv 1) true "0" stocked in
  indexIds stocked = ["0"] /\
  fst res = Rejected IDBRequestError /\
  indexIds (snd res) = ["0"] /\
  metaDoc (snd res) = metaDoc stocked.
Proof. cbv zeta. repeat split; by vm_compute. Qed.

(** C1 (amended): for a record found in the listing, the blob deletion is
    attempted before the metadata is touched (one request is always issued).
    If the deletion fails, the handler rejects and the metadata document, the
    listing and the blob store are unchanged; if it succeeds, the blob is
    deleted, and the records with the given id are filtered out of the
    metadata document and of the listing. *)
Theorem delete_blob_first_then_metadata
    (E : Env) (ident : string) (w : World) (f : BeeFile.t) :
  List.find (fun f => String.eqb (BeeFile.id f) ident) (files w) = Some f ->
  let res := handleDelete E true ident w in
  let keep := fun f => negb (String.eqb (BeeFile.id f) ident) in
  requests (snd res) = S (requests w) /\
  (requestFails E (requests w) = true ->
     fst res = Rejected IDBRequestError /\
     metaDoc (snd res) = metaDoc w /\
     files (snd res) = files w /\
     idb (snd res) = idb w) /\
  (requestFails E (requests w) = false ->
     fst res = Resolved tt /\
     idb (snd res) = delete (BeeFile.blobId f) (idb w) /\
     metaDoc (snd res) = Some (List.filter keep (getMetadata w)) /\
     files (snd res) = List.filter keep (files w) /\
     ident ∉ indexIds (snd res)).
Proof.
  intros Hf. cbv zeta. destruct (requestFails E (requests w)) eqn:Hr.
  - rewrite (handleDelete_found_fail E ident w f Hf Hr). cbn.
    split; [done |]. split; [done |]. intros ?. discriminate.
  - rewrite (handleDelete_found_ok E ident w f Hf Hr). cbn.
    split; [done |]. split; [intros ?; discriminate |]. intros _.
    repeat (split; [done |]).
    unfold indexIds, getMetadata. cbn [metaDoc].
    intros H. by apply filter_ids_elem in H as [_ H].
Qed.

Lemma delete_blob_first_then_metadata_witness :
  List.find (fun f => String.eqb (BeeFile.id f) "0") (files stocked)
    = Some (makeBeeFile sampleUser "0" samplePng) /\
  requestFails calmEnv (requests stocked) = false /\
  fst (handleDelete calmEnv true "0" stocked) = Resolved tt /\
  metaDoc (snd (handleDelete calmEnv true "0" stocked)) =
    Some (List.filter (fun f => negb (String.eqb (BeeFile.id f) "0"))
            (getMetadata stocked)).
Proof.
  assert (H1 : List.find (fun f => String.eqb (BeeFile.id f) "0") (files stocked)
               = Some (makeBeeFile sampleUser "0" samplePng))
    by (vm_compute; reflexivity).
  assert (H2 : requestFails calmEnv (requests stocked) = false) by reflexivity.
  pose proof (delete_blob_first_then_metadata calmEnv "0" stocked _ H1) as H.
  cbv zeta in H. destruct H as (_ & _ & H). destruct (H H2) as (Ha & _ & Hb & _).
  split; [exact H1 |]. split; [exact H2 |]. split; [exact Ha | exact Hb].
Defined.

(** ** C2: deleting twice *)

(** C2, as stated, fails: the second deletion of an id signals no error; the
    handler resolves exactly as the first one did. *)
Lemma second_delete_counterexample :
  let first := handleDelete calmEnv true "0" stocked in
  let second := handleDelete calmEnv true "0" (snd first) in
  indexIds stocked = ["0"] /\
  fst first = Resolved tt /\
  indexIds (snd first) = [] /\
  fst second = Resolved tt /\
  (forall e, fst second <> Rejected e).
Proof.
  cbv zeta. split; [by vm_compute |]. split; [by vm_compute |].
  split; [by vm_compute |].
  assert (H : fst (handleDelete calmEnv true "0"
                     (snd (handleDelete calmEnv true "0" stocked))) = Resolved tt)
    by (by vm_compute).
  split; [exact H |]. intros e. rewrite H. discriminate.
Qed.

(** C2 (amended): after a confirmed deletion that resolved, a second deletion
    of the same id finds no record in the listing; it resolves without
    signalling any error and leaves the whole state, the metadata document and
    the blob store included, exactly as it was. *)
Theorem second_delete_is_noop
    (E : Env) (ident : string) (w : World) (confirmed : bool) :
  fst (handleDelete E true ident w) = Resolved tt ->
  let w1 := snd (handleDelete E true ident w) in
  List.find (fun f => String.eqb (BeeFile.id f) ident) (files w1) = None /\
  handleDelete E confirmed ident w1 = (Resolved tt, w1) /\
  metaDoc (snd (handleDelete E confirmed ident w1)) = metaDoc w1 /\
  idb (snd (handleDelete E confirmed ident w1)) = idb w1.
Proof.
  intros H1. cbv zeta.
  assert (Hnone : List.find (fun f => String.eqb (BeeFile.id f) ident)
                    (files (snd (handleDelete E true ident w))) = None).
  { destruct (List.find (fun f => String.eqb (BeeFile.id f) ident) (files w))
      as [f|] eqn:Hf.
    - destruct (requestFails E (requests w)) eqn:Hr.
      + rewrite (handleDelete_found_fail E ident w f Hf Hr) in H1. discriminate.
      + rewrite (handleDelete_found_ok E ident w f Hf Hr). cbn.
        apply find_filter_removed.
    - by rewrite (handleDelete_absent E true ident w Hf). }
  split; [exact Hnone |].
  by rewrite (handleDelete_absent E confirmed ident _ Hnone).
Qed.

Lemma second_delete_is_noop_witness :
  fst (handleDelete calmEnv true "0" stocked) = Resolved tt /\
  handleDelete calmEnv true "0" (snd (handleDelete calmEnv true "0" stocked)) =
    (Resolved tt, snd (handleDelete calmEnv true "0" stocked)).
Proof.
  assert (H1 : fst (handleDelete calmEnv true "0" stocked) = Resolved tt)
    by (vm_compute; reflexivity).
  split; [exact H1 |].
  exact (proj1 (proj2 (second_delete_is_noop calmEnv "0" stocked true H1))).
Defined.

(** ** C9: unique ids in the metadata document *)

Section UniqueIds.

Context (E : Env).
Hypothesis randomId_inj : forall i j, randomId E i = randomId E j -> i = j.

Lemma IdsDrawn_empty : IdsDrawn E emptyWorld.
Proof. split; [constructor | by intros i ?%elem_of_nil]. Qed.

Lemma IdsDrawn_same w w' :
  indexIds w' = indexIds w -> (draws w <= draws w')%nat ->
  IdsDrawn E w -> IdsDrawn E w'.
Proof.
  intros Hi Hd [Hnd Hdrawn]. split; rewrite Hi; [done |].
  intros i Hin. destruct (Hdrawn i Hin) as (k & Hk & ->).
  exists k. split; [lia | done].
Qed.

Lemma IdsDrawn_upload fs w :
  IdsDrawn E w -> IdsDrawn E (snd (handleUpload E fs w)).
Proof.
  intros HI. destruct (user w) as [u|] eqn:Hu.
  2: { unfold handleUpload. by rewrite Hu. }
  destruct (first_failure E (requests w) (length (accepted fs)))
    as [Hok | (k & Hk & Hf & Hlt)].
  - rewrite (handleUpload_success E u fs w Hu Hok). cbn [snd].
    destruct HI as [Hnd Hdrawn].
    assert (Hnew : map BeeFile.id (map fst (batch E u (draws w) (accepted fs)))
                   = map (randomId E) (seq (draws w) (length (accepted fs)))).
    { rewrite <- (batch_ids E u). by rewrite map_map. }
    unfold IdsDrawn, indexIds, getMetadata. cbn [metaDoc draws].
    fold (getMetadata w). rewrite map_app, Hnew. fold (indexIds w). split.
    + apply NoDup_app. split; [done |]. split.
      * intros i Hi Hin. destruct (Hdrawn i Hi) as (k & Hk & ->).
        change (randomId E k ∈ randomId E <$> seq (draws w) (length (accepted fs)))
          in Hin.
        apply list_elem_of_fmap in Hin as (k' & Heq & Hk').
        apply randomId_inj in Heq as <-. apply elem_of_seq in Hk'. lia.
      * apply NoDup_map_range. intros i j _ _ Hij.
        apply randomId_inj in Hij. lia.
    + intros i [Hi | Hi]%elem_of_app.
      * destruct (Hdrawn i Hi) as (k & Hk & ->). exists k. split; [lia | done].
      * change (i ∈ randomId E <$> seq (draws w) (length (accepted fs))) in Hi.
        apply list_elem_of_fmap in Hi as (k & -> & Hk). apply elem_of_seq in Hk.
        exists k. split; [lia | done].
  - rewrite (handleUpload_failure E u fs w k Hu Hk Hf Hlt). cbn [snd].
    apply (IdsDrawn_same w); [done | cbn; lia | done].
Qed.

Lemma IdsDrawn_delete confirmed ident w :
  IdsDrawn E w -> IdsDrawn E (snd (handleDelete E confirmed ident w)).
Proof.
  intros HI. destruct confirmed; [| by rewrite handleDelete_cancel].
  destruct (List.find (fun f => String.eqb (BeeFile.id f) ident) (files w))
    as [f|] eqn:Hf; [| by rewrite (handleDelete_absent E true ident w Hf)].
  destruct (requestFails E (requests w)) eqn:Hr.
  - rewrite (handleDelete_found_fail E ident w f Hf Hr). cbn [snd].
    by apply (IdsDrawn_same w).
  - rewrite (handleDelete_found_ok E ident w f Hf Hr). cbn [snd].
    destruct HI as [Hnd Hdrawn].
    unfold IdsDrawn, indexIds, getMetadata. cbn [metaDoc draws].
    fold (getMetadata w). split; [by apply filter_ids_NoDup |].
    intros i Hi. apply filter_ids_elem in Hi as [Hi _]. by apply Hdrawn.
Qed.

Lemma IdsDrawn_step ev w :
  IdsDrawn E w -> IdsDrawn E (snd (step E ev w)).
Proof.
  intros HI. destruct ev as [u | | fs | confirmed ident]; cbn [step].
  - by apply (IdsDrawn_same w).
  - by apply (IdsDrawn_same w).
  - by apply IdsDrawn_upload.
  - by apply IdsDrawn_delete.
Qed.

Lemma IdsDrawn_run evs w :
  IdsDrawn E w -> IdsDrawn E (run E evs w).
Proof.
  revert w. induction evs as [|ev evs IH]; intros w HI; [done |].
  cbn. apply IH. by apply IdsDrawn_step.
Qed.

End UniqueIds.

(** C9, as stated, fails: nothing in the code keeps the random ids apart.
    When the random source yields the same id twice, one upload of two files
    leaves two records with that id in the metadata document. *)
Lemma duplicate_ids_counterexample :
  let w := run collidingEnv [EvLogin sampleUser; EvUpload [samplePng; samplePdf]]
             emptyWorld in
  indexIds w = [""; ""] /\ ~ NoDup (indexIds w).
Proof.
  cbv zeta.
  assert (H : indexIds (run collidingEnv
                 [EvLogin sampleUser; EvUpload [samplePng; samplePdf]] emptyWorld)
              = [""; ""]) by (by vm_compute).
  split; [exact H |]. rewrite H. intros [Hn _]%NoDup_cons.
  apply Hn. by left.
Qed.

(** C9 (amended): provided the random source never yields the same id twice,
    after any sequence of logins, logouts, uploads and deletions starting from
    an empty store the metadata document holds no two records with the same
    id. *)
Theorem index_ids_unique (E : Env) (evs : list Event) :
  (forall i j, randomId E i = randomId E j -> i = j) ->
  NoDup (indexIds (run E evs emptyWorld)).
Proof.
  intros Hinj.
  apply (IdsDrawn_run E Hinj evs emptyWorld), IdsDrawn_empty.
Qed.

Lemma index_ids_unique_witness :
  (forall i j, randomId calmEnv i = randomId calmEnv j -> i = j) /\
  NoDup (indexIds (run calmEnv
           [EvLogin sampleUser; EvUpload [samplePng; samplePdf];
            EvDelete true "0"; EvUpload [samplePng]] emptyWorld)).
Proof.
  assert (H : forall i j, randomId calmEnv i = randomId calmEnv j -> i = j).
  { intros i j Hij. cbn in Hij. exact (pretty_nat_inj i j Hij). }
  split; [exact H |].
  exact (index_ids_unique calmEnv _ H).
Defined.

(** ** The stable sort *)

Section StableSort.

Context {A : Type} (comparefn : A -> A -> Z).

Lemma insertSorted_perm a l : Permutation (insertSorted comparefn a l) (a :: l).
Proof.
  induction l as [|b l IH]; cbn; [done |].
  destruct (comparefn a b <=? 0)%Z; [done |].
  rewrite IH. apply perm_swap.
Qed.

Lemma arraySort_cons a l :
  arraySort comparefn (a :: l) = insertSorted comparefn a (arraySort comparefn l).
Proof. done. Qed.

Lemma arraySort_perm l : Permutation (arraySort comparefn l) l.
Proof.
  induction l as [|a l IH]; [done |].
  rewrite arraySort_cons, insertSorted_perm. by constructor.
Qed.

Lemma StronglySorted_Ordered l :
  StronglySorted (fun a b => (comparefn a b <= 0)%Z) l -> Ordered comparefn l.
Proof.
  induction 1 as [|x l Hs IH Hall]; intros i j a b Hij Hi Hj.
  - done.
  - destruct j as [|j]; [lia |]. cbn in Hj. destruct i as [|i]; cbn in Hi.
    + injection Hi as <-. rewrite List.Forall_forall in Hall. apply Hall.
      apply list_elem_of_In. by eapply list_elem_of_lookup_2.
    + apply (IH i j); [lia | done..].
Qed.

Hypothesis consistent : Consistent comparefn.

Lemma consistent_tie_sym a b : comparefn a b = 0%Z -> comparefn b a = 0%Z.
Proof.
  intros H. pose proof (consistent_flip _ consistent a b).
  pose proof (consistent_flip _ consistent b a). lia.
Qed.

Lemma consistent_tie_trans a b c :
  comparefn a b = 0%Z -> comparefn b c = 0%Z -> comparefn a c = 0%Z.
Proof.
  intros Hab Hbc.
  pose proof (consistent_trans _ consistent a b c).
  pose proof (consistent_trans _ consistent c b a).
  pose proof (consistent_tie_sym a b Hab). pose proof (consistent_tie_sym b c Hbc).
  pose proof (consistent_flip _ consistent a c).
  pose proof (consistent_flip _ consistent c a). lia.
Qed.

Lemma insertSorted_sorted a l :
  StronglySorted (fun a b => (comparefn a b <= 0)%Z) l ->
  StronglySorted (fun a b => (comparefn a b <= 0)%Z) (insertSorted comparefn a l).
Proof.
  induction 1 as [|b l Hs IH Hall]; cbn.
  - repeat constructor.
  - destruct (Z.leb_spec (comparefn a b) 0) as [Hab | Hab].
    + constructor; [by constructor |]. constructor; [done |].
      eapply List.Forall_impl; [| exact Hall].
      intros c Hbc. by apply (consistent_trans _ consistent a b c).
    + constructor; [done |].
      eapply Permutation_Forall; [symmetry; apply insertSorted_perm |].
      constructor; [| done].
      pose proof (consistent_flip _ consistent b a). lia.
Qed.

Lemma arraySort_sorted l :
  StronglySorted (fun a b => (comparefn a b <= 0)%Z) (arraySort comparefn l).
Proof.
  induction l as [|a l IH]; [constructor |].
  rewrite arraySort_cons. by apply insertSorted_sorted.
Qed.

Lemma arraySort_Ordered l : Ordered comparefn (arraySort comparefn l).
Proof. apply StronglySorted_Ordered, arraySort_sorted. Qed.

(** Inserting [a] moves it past elements it compares greater than only, so
    the elements tied with any [x] keep their order. *)
Lemma insertSorted_stable x a l :
  tiedWith comparefn x (insertSorted comparefn a l) = tiedWith comparefn x (a :: l).
Proof.
  unfold tiedWith. induction l as [|b l IH]; [done |].
  cbn [insertSorted]. destruct (Z.leb_spec (comparefn a b) 0) as [Hab | Hab];
    [done |].
  cbn [List.filter] in *. rewrite IH.
  destruct (Z.eqb_spec (comparefn x a) 0) as [Hxa | Hxa];
    destruct (Z.eqb_spec (comparefn x b) 0) as [Hxb | Hxb]; try done.
  pose proof (consistent_tie_trans a x b (consistent_tie_sym x a Hxa) Hxb). lia.
Qed.

Lemma arraySort_stable x l :
  tiedWith comparefn x (arraySort comparefn l) = tiedWith comparefn x l.
Proof.
  induction l as [|a l IH]; [done |].
  rewrite arraySort_cons, insertSorted_stable.
  unfold tiedWith in *. cbn [List.filter]. by rewrite IH.
Qed.

Lemma consistent_refl a : comparefn a a = 0%Z.
Proof. pose proof (consistent_flip _ consistent a a). lia. Qed.

Lemma Ordered_tail a l : Ordered comparefn (a :: l) -> Ordered comparefn l.
Proof.
  intros H i j x y Hij Hi Hj. apply (H (S i) (S j)); [lia | done..].
Qed.

Lemma Ordered_head a l b :
  Ordered comparefn (a :: l) -> In b (a :: l) -> (comparefn a b <= 0)%Z.
Proof.
  intros H [<- | Hb]; [rewrite consistent_refl; lia |].
  apply list_elem_of_In, list_elem_of_lookup_1 in Hb as [j Hj].
  apply (H 0%nat (S j)); [lia | done..].
Qed.

Lemma tiedWith_cons x a l :
  tiedWith comparefn x (a :: l) =
  if (comparefn x a =? 0)%Z then a :: tiedWith comparefn x l
  else tiedWith comparefn x l.
Proof. done. Qed.

(** The model does not depend on the engine: for a consistent comparator,
    two orderings of the same elements that both keep tied elements in their
    original order are the same list.  So every stable sort returns what
    [arraySort] returns. *)
Lemma stable_order_unique l1 l2 :
  Permutation l1 l2 ->
  Ordered comparefn l1 -> Ordered comparefn l2 ->
  (forall x, tiedWith comparefn x l1 = tiedWith comparefn x l2) ->
  l1 = l2.
Proof.
  revert l2. induction l1 as [|a l1 IH]; intros l2 Hp H1 H2 Ht.
  - by apply Permutation_nil in Hp.
  - destruct l2 as [|b l2]; [by apply Permutation_sym, Permutation_nil in Hp |].
    assert (Hab : (comparefn a b <= 0)%Z).
    { apply (Ordered_head a l1 b H1).
      apply (Permutation_in b (Permutation_sym Hp)). by left. }
    assert (Hba : (comparefn b a <= 0)%Z).
    { apply (Ordered_head b l2 a H2). apply (Permutation_in a Hp). by left. }
    assert (Htie : comparefn a b = 0%Z).
    { pose proof (consistent_flip _ consistent a b).
      pose proof (consistent_flip _ consistent b a). lia. }
    pose proof (Ht a) as Ha. rewrite !tiedWith_cons in Ha.
    rewrite consistent_refl, Htie in Ha. cbn in Ha. injection Ha as Heq _.
    subst b. f_equal. apply IH.
    + by apply Permutation_cons_inv in Hp.
    + by apply Ordered_tail in H1.
    + by apply Ordered_tail in H2.
    + intros x. pose proof (Ht x) as Hx. rewrite !tiedWith_cons in Hx.
      destruct (comparefn x a =? 0)%Z; [by injection Hx | done].
Qed.

Lemma arraySort_unique l sorted :
  Permutation sorted l ->
  Ordered comparefn sorted ->
  (forall x, tiedWith comparefn x sorted = tiedWith comparefn x l) ->
  sorted = arraySort comparefn l.
Proof.
  intros Hp Ho Ht. apply stable_order_unique; [| done | apply arraySort_Ordered |].
  - rewrite Hp. symmetry. apply arraySort_perm.
  - intros x. by rewrite Ht, arraySort_stable.
Qed.

End StableSort.

(** ** C7: the filtered and sorted view *)

Section Comparator.

Context (localeCompare : string -> string -> Z).
Hypothesis collation : Consistent localeCompare.

Local Ltac collate x y z :=
  pose proof (consistent_flip _ collation x y);
  pose proof (consistent_flip _ collation y x);
  pose proof (consistent_flip _ collation y z);
  pose proof (consistent_flip _ collation z y);
  pose proof (consistent_flip _ collation x z);
  pose proof (consistent_flip _ collation z x);
  pose proof (consistent_trans _ collation x y z);
  pose proof (consistent_trans _ collation z y x).

Lemma compareFiles_consistent sortBy sortOrder :
  Consistent (compareFiles localeCompare sortBy sortOrder).
Proof.
  split.
  - intros a b. unfold compareFiles.
    collate (BeeFile.name a) (BeeFile.name b) (BeeFile.name a).
    collate (categoryString (BeeFile.category a))
            (categoryString (BeeFile.category b))
            (categoryString (BeeFile.category a)).
    destruct sortBy, sortOrder; lia.
  - intros a b c. unfold compareFiles.
    collate (BeeFile.name a) (BeeFile.name b) (BeeFile.name c).
    collate (categoryString (BeeFile.category a))
            (categoryString (BeeFile.category b))
            (categoryString (BeeFile.category c)).
    destruct sortBy, sortOrder; lia.
Qed.

Lemma compareFiles_KeyLe sortBy sortOrder a b :
  (compareFiles localeCompare sortBy sortOrder a b <= 0)%Z <->
  match sortOrder with
  | Asc => KeyLe localeCompare sortBy a b
  | Desc => KeyLe localeCompare sortBy b a
  end.
Proof.
  unfold compareFiles, KeyLe.
  collate (BeeFile.name a) (BeeFile.name b) (BeeFile.name a).
  collate (categoryString (BeeFile.category a))
          (categoryString (BeeFile.category b))
          (categoryString (BeeFile.category a)).
  destruct sortBy, sortOrder; lia.
Qed.

Lemma compareFiles_KeyTie sortBy sortOrder a b :
  compareFiles localeCompare sortBy sortOrder a b = 0%Z <->
  KeyTie localeCompare sortBy a b.
Proof. unfold compareFiles, KeyTie. destruct sortBy, sortOrder; lia. Qed.

End Comparator.

Lemma matchesFilter_all_empty (f : BeeFile.t) : matchesFilter "" all f = true.
Proof.
  unfold matchesFilter. cbn [JsString.toLowerCase].
  by destruct (JsString.toLowerCase (BeeFile.name f)).
Qed.

Lemma codeUnitCompare_flip a b :
  (codeUnitCompare a b < 0)%Z <-> (0 < codeUnitCompare b a)%Z.
Proof.
  revert b. induction a as [|x a IH]; intros [|y b]; cbn; try lia.
  destruct (Z.eqb_spec (Z.of_nat (nat_of_ascii x) - Z.of_nat (nat_of_ascii y)) 0);
    destruct (Z.eqb_spec (Z.of_nat (nat_of_ascii y) - Z.of_nat (nat_of_ascii x)) 0);
    try lia.
  apply IH.
Qed.

Lemma codeUnitCompare_trans a b c :
  (codeUnitCompare a b <= 0)%Z -> (codeUnitCompare b c <= 0)%Z ->
  (codeUnitCompare a c <= 0)%Z.
Proof.
  revert b c. induction a as [|x a IH]; intros [|y b] [|z c]; cbn; try lia.
  destruct (Z.eqb_spec (Z.of_nat (nat_of_ascii x) - Z.of_nat (nat_of_ascii y)) 0);
    destruct (Z.eqb_spec (Z.of_nat (nat_of_ascii y) - Z.of_nat (nat_of_ascii z)) 0);
    destruct (Z.eqb_spec (Z.of_nat (nat_of_ascii x) - Z.of_nat (nat_of_ascii z)) 0);
    try lia.
  apply IH.
Qed.

Lemma codeUnitCompare_consistent : Consistent codeUnitCompare.
Proof.
  split; [apply codeUnitCompare_flip | apply codeUnitCompare_trans].
Qed.

(** C7: the view holds exactly the records that pass the filter; for a
    consistent locale collation it is ordered by the selected key (name and
    category by the collation, size and date numerically), in reverse for
    descending order, and records with equal keys keep their original relative
    order.  Sorting [{name:"b",size:10},{name:"a",size:10}] by size ascending
    leaves ["b","a"], and by name ascending gives ["a","b"]. *)
Theorem filteredFiles_sorted_and_stable
    (localeCompare : string -> string -> Z) (fs : list BeeFile.t)
    (search : string) (activeCategory : FileCategory)
    (sortBy : SortBy) (sortOrder : SortOrder) :
  Consistent localeCompare ->
  let comparefn := compareFiles localeCompare sortBy sortOrder in
  let visible := List.filter (matchesFilter search activeCategory) fs in
  let out := filteredFiles localeCompare fs search activeCategory sortBy sortOrder in
  Permutation out visible /\
  (forall i j a b, (i < j)%nat -> out !! i = Some a -> out !! j = Some b ->
     match sortOrder with
     | Asc => KeyLe localeCompare sortBy a b
     | Desc => KeyLe localeCompare sortBy b a
     end) /\
  (forall a b, comparefn a b = 0%Z <-> KeyTie localeCompare sortBy a b) /\
  (forall a b, comparefn a b =
     match sortOrder with
     | Asc => compareFiles localeCompare sortBy Asc a b
     | Desc => (- compareFiles localeCompare sortBy Asc a b)%Z
     end) /\
  (forall x, tiedWith comparefn x out = tiedWith comparefn x visible) /\
  (forall ra rb,
     BeeFile.name ra = "a" -> BeeFile.name rb = "b" ->
     BeeFile.size ra = 10%Z -> BeeFile.size rb = 10%Z ->
     filteredFiles localeCompare [rb; ra] "" all SortSize Asc = [rb; ra] /\
     ((localeCompare "a" "b" < 0)%Z ->
      filteredFiles localeCompare [rb; ra] "" all SortName Asc = [ra; rb])).
Proof.
  intros Hc. cbv zeta. unfold filteredFiles.
  pose proof (compareFiles_consistent localeCompare Hc sortBy sortOrder) as Hcmp.
  split; [apply arraySort_perm |].
  split.
  { intros i j a b Hij Hi Hj.
    apply (compareFiles_KeyLe localeCompare Hc).
    exact (arraySort_Ordered _ Hcmp _ i j a b Hij Hi Hj). }
  split; [intros a b; apply compareFiles_KeyTie |].
  split; [intros a b; by destruct sortOrder |].
  split; [intros x; by apply arraySort_stable |].
  intros ra rb Ha Hb Hsa Hsb.
  cbn [List.filter]. rewrite !matchesFilter_all_empty.
  unfold arraySort. cbn [fold_right insertSorted compareFiles].
  rewrite Ha, Hb, Hsa, Hsb. split; [done |].
  intros Hlt. pose proof (consistent_flip _ Hc "a" "b").
  destruct (Z.leb_spec (localeCompare "b" "a") 0); [lia | done].
Qed.

Lemma filteredFiles_sorted_and_stable_witness :
  Consistent codeUnitCompare /\
  filteredFiles codeUnitCompare [recordB; recordA] "" all SortSize Asc
    = [recordB; recordA] /\
  filteredFiles codeUnitCompare [recordB; recordA] "" all SortName Asc
    = [recordA; recordB].
Proof.
  pose proof (filteredFiles_sorted_and_stable codeUnitCompare
                [recordB; recordA] "" all SortName Asc
                codeUnitCompare_consistent) as H.
  cbv zeta in H. destruct H as (_ & _ & _ & _ & _ & H).
  destruct (H recordA recordB eq_refl eq_refl eq_refl eq_refl) as [Hs Hn].
  split; [exact codeUnitCompare_consistent |]. split; [exact Hs |].
  apply Hn. reflexivity.
Defined.

(** ** Numbers: rounding and the unit index *)

Section Numbers.

Lemma fixedDigits_rounds (d : nat) (num den : Z) :
  (0 < den)%Z -> RoundsTo d num den (JsNumber.fixedDigits d num den).
Proof.
  intros Hden. unfold RoundsTo, JsNumber.fixedDigits.
  generalize (2 * num * 10 ^ Z.of_nat d + den)%Z. intros x.
  pose proof (Z.mul_div_le x (2 * den) ltac:(lia)).
  pose proof (Z.mul_succ_div_gt x (2 * den) ltac:(lia)).
  lia.
Qed.

Lemma pow_1024 (i : Z) : (0 <= i)%Z -> (1024 ^ i = 2 ^ (10 * i))%Z.
Proof. intros Hi. by rewrite Z.pow_mul_r by lia. Qed.

(** The unit index is the exponent of the largest power of 1024 not above
    the byte count. *)
Lemma unitIndex_spec (bytes : Z) :
  (1 <= bytes)%Z ->
  (0 <= unitIndex bytes)%Z /\
  (1024 ^ unitIndex bytes <= bytes < 1024 ^ (unitIndex bytes + 1))%Z.
Proof.
  intros Hb. unfold unitIndex.
  pose proof (Z.log2_nonneg bytes) as Hl.
  destruct (Z.log2_spec bytes) as [Hlo Hhi]; [lia |].
  assert (Hi : (0 <= Z.log2 bytes / 10)%Z) by (apply Z.div_pos; lia).
  pose proof (Z.mul_div_le (Z.log2 bytes) 10 ltac:(lia)) as Hq1.
  pose proof (Z.mul_succ_div_gt (Z.log2 bytes) 10 ltac:(lia)) as Hq2.
  split; [done |].
  rewrite !pow_1024 by lia. split.
  - transitivity (2 ^ Z.log2 bytes)%Z; [| done].
    apply Z.pow_le_mono_r; lia.
  - eapply Z.lt_le_trans; [exact Hhi |].
    apply Z.pow_le_mono_r; lia.
Qed.

Lemma unitIndex_unique (bytes i : Z) :
  (0 <= i)%Z -> (1024 ^ i <= bytes < 1024 ^ (i + 1))%Z -> unitIndex bytes = i.
Proof.
  intros Hi [Hlo Hhi].
  assert (Hb : (1 <= bytes)%Z).
  { pose proof (Z.pow_pos_nonneg 1024 i). lia. }
  destruct (unitIndex_spec bytes Hb) as (Hj & Hjlo & Hjhi).
  destruct (Z.lt_trichotomy (unitIndex bytes) i) as [Hlt | [Heq | Hgt]]; [| done |].
  - assert (1024 ^ (unitIndex bytes + 1) <= 1024 ^ i)%Z
      by (apply Z.pow_le_mono_r; lia). lia.
  - assert (1024 ^ (i + 1) <= 1024 ^ unitIndex bytes)%Z
      by (apply Z.pow_le_mono_r; lia). lia.
Qed.

Lemma unitIndex_small (bytes : Z) :
  (1 <= bytes < 1024 ^ 4)%Z -> (0 <= unitIndex bytes <= 3)%Z.
Proof.
  intros [Hb Hlt]. destruct (unitIndex_spec bytes Hb) as (Hi & Hlo & _).
  split; [done |].
  destruct (Z.le_gt_cases 4 (unitIndex bytes)) as [Hge | ?]; [| lia].
  assert (1024 ^ 4 <= 1024 ^ unitIndex bytes)%Z by (apply Z.pow_le_mono_r; lia).
  lia.
Qed.

Lemma unitIndex_large (bytes : Z) :
  (1024 ^ 4 <= bytes)%Z -> (4 <= unitIndex bytes)%Z.
Proof.
  intros Hge. destruct (unitIndex_spec bytes) as (Hi & _ & Hhi); [lia |].
  destruct (Z.le_gt_cases 4 (unitIndex bytes)) as [? | Hlt]; [done |].
  assert (1024 ^ (unitIndex bytes + 1) <= 1024 ^ 4)%Z
    by (apply Z.pow_le_mono_r; lia).
  lia.
Qed.

Lemma sizeLabel_small (i : Z) :
  (0 <= i <= 3)%Z -> sizes !! Z.to_nat i = Some (sizeLabel i) /\ sizeLabel i ∈ sizes.
Proof.
  intros Hi.
  assert (i = 0 \/ i = 1 \/ i = 2 \/ i = 3)%Z as Hcases by lia. clear Hi.
  destruct Hcases as [-> | [-> | [-> | ->]]];
    (split; [reflexivity |]); cbv [sizeLabel sizes]; cbn; set_solver.
Qed.

Lemma sizeLabel_large (i : Z) :
  (4 <= i)%Z -> sizes !! Z.to_nat i = None /\ sizeLabel i = "undefined".
Proof.
  intros Hi. assert (Hn : sizes !! Z.to_nat i = None).
  { apply lookup_ge_None. cbn. lia. }
  split; [done |]. unfold sizeLabel. by rewrite Hn.
Qed.

Lemma formatFileSize_pos (bytes : Z) :
  (1 <= bytes)%Z ->
  formatFileSize bytes =
    JsNumber.parseFloatString (JsNumber.toFixed 2 bytes (1024 ^ unitIndex bytes))
    +:+ " " +:+ sizeLabel (unitIndex bytes).
Proof.
  intros Hb. unfold formatFileSize.
  destruct (Z.eqb_spec bytes 0); [lia |].
  destruct (Z.ltb_spec bytes 0); [lia | done].
Qed.

Lemma totalSize_sum (fs : list BeeFile.t) : totalSize fs = sumSizes fs.
Proof.
  unfold totalSize, sumSizes.
  assert (H : forall acc,
            fold_left (fun acc f => acc + BeeFile.size f)%Z fs acc =
            (acc + fold_right Z.add 0 (map BeeFile.size fs))%Z).
  { induction fs as [|f fs IH]; intros acc; cbn; [lia |]. rewrite IH. lia. }
  rewrite H. lia.
Qed.

Lemma lastChar_append (s t : string) :
  t <> "" -> lastChar (s +:+ t) = lastChar t.
Proof.
  intros Ht. unfold lastChar. induction s as [|x s IH]; [done |].
  change (String x s +:+ t) with (String x (s +:+ t)).
  cbn [list_ascii_of_string].
  destruct (list_ascii_of_string (s +:+ t)) eqn:E.
  - destruct s, t; first [done | discriminate E].
  - rewrite <- IH. reflexivity.
Qed.

End Numbers.

(** ** C8: the usage summary *)

(** C8, as stated, fails: [parseFloat] drops the trailing zeros that
    [toFixed(2)] produced, so the three sample records are summarised as
    "1 MB" and not as "1.00 MB"; and from 1024^4 bytes on no label of the list
    is chosen at all. *)
Lemma usage_format_counterexample :
  map BeeFile.size usageSample = [1024; 2048; 1024 * 1024]%Z /\
  total (storageUsage usageSample) = "1 MB" /\
  total (storageUsage usageSample) <> "1.00 MB" /\
  (1024 ^ 4 <= 2 * 1024 ^ 4)%Z /\
  formatFileSize (2 * 1024 ^ 4) = "2 undefined" /\
  "undefined" ∉ sizes.
Proof.
  split; [reflexivity |]. split; [by vm_compute |].
  split; [by vm_compute |]. split; [by vm_compute |].
  split; [by vm_compute |].
  unfold sizes. intros H.
  repeat (apply elem_of_cons in H as [H | H]; [discriminate H |]).
  by apply elem_of_nil in H.
Qed.

(** C8 (amended): the usage summary adds up the sizes of the records; its
    percentage is [min(100, total / quota * 100)] with quota 2 GiB, rounded to
    one decimal; its total is rendered by [formatFileSize], which answers
    "0 Bytes" for zero and, for a byte count from 1 up to (excluding) 1024^4,
    divides by the largest power of 1024 not above the count, rounds to two
    decimals, drops trailing zeros, and appends the matching label among
    Bytes, KB, MB, GB.  For records of 1024, 2048 and 1024 * 1024 bytes the
    percentage is "0.0" and the total is "1 MB". *)
Theorem storageUsage_summary (fs : list BeeFile.t) :
  let t := totalSize fs in
  t = sumSizes fs /\
  total (storageUsage fs) = formatFileSize t /\
  QUOTA = (2 * 1024 ^ 3)%Z /\
  ((0 <= t)%Z ->
     exists num den n,
       (0 < den)%Z /\
       ((t <= QUOTA)%Z -> num = (t * 100)%Z /\ den = QUOTA) /\
       ((QUOTA < t)%Z -> num = 100%Z /\ den = 1%Z) /\
       RoundsTo 1 num den n /\
       percent (storageUsage fs) =
         pretty (n / 10)%Z +:+ "." +:+ JsNumber.padZeros 1 (pretty (n mod 10)%Z)) /\
  formatFileSize 0 = "0 Bytes" /\
  (forall bytes, (1 <= bytes < 1024 ^ 4)%Z ->
     exists i label n,
       (0 <= i <= 3)%Z /\
       sizes !! Z.to_nat i = Some label /\
       (1024 ^ i <= bytes < 1024 ^ (i + 1))%Z /\
       RoundsTo 2 bytes (1024 ^ i) n /\
       formatFileSize bytes =
         JsNumber.parseFloatString
           (pretty (n / 100)%Z +:+ "." +:+ JsNumber.padZeros 2 (pretty (n mod 100)%Z))
         +:+ " " +:+ label) /\
  formatFileSize 1536 = "1.5 KB" /\
  formatFileSize 1075 = "1.05 KB" /\
  (forall r1 r2 r3,
     BeeFile.size r1 = 1024%Z -> BeeFile.size r2 = 2048%Z ->
     BeeFile.size r3 = (1024 * 1024)%Z ->
     storageUsage [r1; r2; r3] = mkUsage "1 MB" "0.0").
Proof.
  cbv zeta. split; [apply totalSize_sum |].
  split; [unfold storageUsage; by destruct (percentFraction (totalSize fs)) |].
  split; [reflexivity |].
  split.
  { intros Ht. unfold storageUsage, percentFraction.
    destruct (Z.leb_spec (totalSize fs * 100) (100 * QUOTA)) as [Hle | Hgt].
    - exists (totalSize fs * 100)%Z, QUOTA,
        (JsNumber.fixedDigits 1 (totalSize fs * 100) QUOTA).
      split; [done |]. split; [done |]. split; [lia |].
      split; [by apply fixedDigits_rounds | done].
    - exists 100%Z, 1%Z, (JsNumber.fixedDigits 1 100 1).
      split; [done |]. split; [lia |]. split; [done |].
      split; [by apply fixedDigits_rounds | done]. }
  split; [reflexivity |].
  split.
  { intros bytes Hb.
    destruct (unitIndex_spec bytes) as (Hi & Hlo & Hhi); [lia |].
    pose proof (unitIndex_small bytes Hb) as Hsmall.
    destruct (sizeLabel_small _ Hsmall) as [Hl _].
    exists (unitIndex bytes), (sizeLabel (unitIndex bytes)),
      (JsNumber.fixedDigits 2 bytes (1024 ^ unitIndex bytes)).
    split; [done |]. split; [done |]. split; [done |].
    split; [apply fixedDigits_rounds; by apply Z.pow_pos_nonneg |].
    by rewrite formatFileSize_pos by lia. }
  split; [by vm_compute |]. split; [by vm_compute |].
  intros r1 r2 r3 H1 H2 H3. unfold storageUsage, totalSize. cbn [fold_left].
  rewrite H1, H2, H3. by vm_compute.
Qed.

(** ** C10: byte counts past the labels *)

(** C10, as stated, fails: the unit index is not 4 for every byte count from
    1024^4 on; at 2 * 1024^5 bytes it is 5. *)
Lemma unitIndex_counterexample :
  (1024 ^ 4 <= 2 * 1024 ^ 5)%Z /\
  unitIndex (2 * 1024 ^ 5) = 5%Z /\
  unitIndex (2 * 1024 ^ 5) <> 4%Z /\
  formatFileSize (2 * 1024 ^ 5) = "2 undefined".
Proof.
  split; [by vm_compute |]. split; [by vm_compute |].
  split; [by vm_compute |]. by vm_compute.
Qed.

(** The floor of the mathematical quotient is one of the floors [HostLog]
    describes, and with it [formatFileSizeWith] is [formatFileSize]. *)
Lemma unitIndex_hostLog : HostLog unitIndex.
Proof.
  split; [| by vm_compute].
  intros a b Ha Hab. unfold unitIndex.
  apply Z.div_le_mono; [lia |]. by apply Z.log2_le_mono.
Qed.

Lemma formatFileSizeWith_unitIndex (bytes : Z) :
  formatFileSizeWith unitIndex bytes = formatFileSize bytes.
Proof. reflexivity. Qed.

(** C10 (amended): for every byte count of at least 1024^4 the unit index the
    host computes is at least 4, which is past the end of the four labels
    Bytes, KB, MB, GB: the lookup finds nothing, the text "undefined" stands
    where the unit should be, and the result is not a value followed by one
    of the four labels.  Of the host's logarithm this uses that it does not
    decrease and that the quotient evaluates to 4 at 1024^4. *)
Theorem formatFileSize_past_the_labels (logFloor : Z -> Z) (bytes : Z) :
  HostLog logFloor ->
  (1024 ^ 4 <= bytes)%Z ->
  (4 <= logFloor bytes)%Z /\
  length sizes = 4%nat /\
  sizes !! Z.to_nat (logFloor bytes) = None /\
  sizeLabel (logFloor bytes) = "undefined" /\
  formatFileSizeWith logFloor bytes =
    JsNumber.parseFloatString (JsNumber.toFixed 2 bytes (1024 ^ logFloor bytes))
    +:+ " undefined" /\
  (forall value label, label ∈ sizes ->
     formatFileSizeWith logFloor bytes <> value +:+ " " +:+ label).
Proof.
  intros [Hmono Htib] Hb.
  assert (Hi : (4 <= logFloor bytes)%Z).
  { rewrite <- Htib. apply Hmono; [by vm_compute | exact Hb]. }
  destruct (sizeLabel_large _ Hi) as [Hnone Hlabel].
  assert (Hfmt : formatFileSizeWith logFloor bytes =
            JsNumber.parseFloatString
              (JsNumber.toFixed 2 bytes (1024 ^ logFloor bytes)) +:+ " undefined").
  { unfold formatFileSizeWith.
    destruct (Z.eqb_spec bytes 0) as [-> | _]; [by vm_compute in Hb |].
    destruct (Z.ltb_spec bytes 0) as [Hneg | _].
    { assert (0 < 1024 ^ 4)%Z by (by vm_compute). lia. }
    cbv zeta. by rewrite Hlabel. }
  split; [done |]. split; [reflexivity |]. split; [done |]. split; [done |].
  split; [done |].
  intros value label Hin Heq.
  assert (Hlast : lastChar (formatFileSizeWith logFloor bytes) = Some "d"%char).
  { rewrite Hfmt. by rewrite lastChar_append. }
  rewrite Heq in Hlast.
  unfold sizes in Hin.
  repeat (apply elem_of_cons in Hin as [-> | Hin]);
    try (rewrite lastChar_append in Hlast by done; discriminate Hlast).
  by apply elem_of_nil in Hin.
Qed.

Lemma formatFileSize_past_the_labels_witness :
  HostLog unitIndex /\
  (1024 ^ 4 <= 1024 ^ 4)%Z /\
  sizes !! Z.to_nat (unitIndex (1024 ^ 4)) = None /\
  formatFileSizeWith unitIndex (1024 ^ 4) = "1 undefined" /\
  formatFileSizeWith unitIndex (1024 ^ 4) <> "1" +:+ " " +:+ "GB".
Proof.
  assert (H0 : (1024 ^ 4 <= 1024 ^ 4)%Z) by lia.
  destruct (formatFileSize_past_the_labels unitIndex (1024 ^ 4)
              unitIndex_hostLog H0) as (_ & _ & Hn & _ & _ & Hl).
  split; [exact unitIndex_hostLog |]. split; [exact H0 |].
  split; [exact Hn |]. split; [vm_compute; reflexivity |].
  apply Hl. unfold sizes. repeat constructor.
Defined.

(** * Further properties of the handlers *)

(** ** Coherence is kept by every event *)

Section Coherence.

Context (E : Env).

Lemma filter_comm {A} (p q : A -> bool) (l : list A) :
  List.filter p (List.filter q l) = List.filter q (List.filter p l).
Proof.
  induction l as [|x l IH]; [done |]. cbn.
  destruct (p x) eqn:Hp, (q x) eqn:Hq; cbn; rewrite ?Hp, ?Hq, IH; done.
Qed.

Lemma elem_of_filter_bool {A} (p : A -> bool) (l : list A) (x : A) :
  x ∈ List.filter p l <-> x ∈ l /\ p x = true.
Proof. rewrite !list_elem_of_In. apply List.filter_In. Qed.

Lemma find_id_elem ident (l : list BeeFile.t) f :
  List.find (fun f => String.eqb (BeeFile.id f) ident) l = Some f ->
  f ∈ l /\ BeeFile.id f = ident.
Proof.
  intros H. apply List.find_some in H as [Hin Heq].
  split; [by apply list_elem_of_In | by apply String.eqb_eq].
Qed.

Lemma find_id_none ident (l : list BeeFile.t) :
  (forall r, r ∈ l -> BeeFile.id r <> ident) ->
  List.find (fun f => String.eqb (BeeFile.id f) ident) l = None.
Proof.
  intros H. destruct (List.find _ l) as [f|] eqn:Hf; [| done].
  apply find_id_elem in Hf as [Hin Heq]. by destruct (H f Hin).
Qed.

Lemma listFiles_elem uid w r :
  r ∈ listFiles uid w <-> r ∈ getMetadata w /\ BeeFile.ownerId r = uid.
Proof.
  unfold listFiles. rewrite elem_of_filter_bool.
  by rewrite String.eqb_eq.
Qed.

Lemma batch_elem (u : User.t) d fs r :
  r ∈ map fst (batch E u d fs) ->
  exists j f, fs !! j = Some f /\ r = makeBeeFile u (randomId E (d + j)) f.
Proof.
  revert d. induction fs as [|f fs IH]; intros d; cbn [batch map fst].
  - by intros ?%elem_of_nil.
  - intros [-> | H]%elem_of_cons.
    + exists 0%nat, f. by rewrite Nat.add_0_r.
    + destruct (IH _ H) as (j & g & Hj & ->). exists (S j), g.
      by rewrite Nat.add_succ_r.
Qed.

Lemma detectCategory_not_all m : detectCategory m <> all.
Proof.
  unfold detectCategory.
  by repeat match goal with |- context [if ?b then _ else _] => destruct b end.
Qed.

Lemma makeBeeFile_wellFormed (u : User.t) ident f :
  (JsFile.size f <= MAX_SIZE)%Z -> WellFormedRecord (makeBeeFile u ident f).
Proof.
  intros Hs. unfold WellFormedRecord, makeBeeFile. cbn.
  destruct (String.eqb_spec (JsFile.type f) "") as [-> | Hne];
    repeat split; try done; try apply detectCategory_not_all.
Qed.

Lemma batch_wellFormed (u : User.t) d fs r :
  r ∈ map fst (batch E u d (accepted fs)) -> WellFormedRecord r.
Proof.
  intros (j & f & Hj & ->)%batch_elem. apply makeBeeFile_wellFormed.
  pose proof (accepted_sizes fs) as Hall. rewrite List.Forall_forall in Hall.
  apply Hall, list_elem_of_In. by eapply list_elem_of_lookup_2.
Qed.

Lemma filter_owner_none (uid : string) (l : list BeeFile.t) :
  (forall r, In r l -> BeeFile.ownerId r <> uid) ->
  List.filter (fun f => String.eqb (BeeFile.ownerId f) uid) l = [].
Proof.
  induction l as [|r l IH]; intros H; [done |]. cbn.
  destruct (String.eqb_spec (BeeFile.ownerId r) uid) as [Heq | _].
  - destruct (H r); [by left | done].
  - apply IH. intros r' Hr'. apply H. by right.
Qed.

Lemma listFiles_after_upload (u : User.t) uid (old : list BeeFile.t) d fs w w' :
  getMetadata w = old ->
  getMetadata w' = (old ++ map fst (batch E u d fs))%list ->
  listFiles uid w' =
    (listFiles uid w ++
     if String.eqb (User.id u) uid then map fst (batch E u d fs) else [])%list.
Proof.
  intros Hw Hw'. unfold listFiles. rewrite Hw, Hw', List.filter_app. f_equal.
  destruct (String.eqb_spec (User.id u) uid) as [<- | Hne].
  - apply filter_owner_all. intros r Hr. by apply (batch_owner E u) in Hr.
  - apply filter_owner_none. intros r Hr.
    by rewrite (batch_owner E u _ _ _ Hr).
Qed.

End Coherence.

Section CoherenceSteps.

Context (E : Env).

Lemma blob_key_inj (a b : string) : "blob_" +:+ a = "blob_" +:+ b -> a = b.
Proof. intros H. by simplify_eq/=. Qed.

Lemma Coherent_empty : Coherent emptyWorld.
Proof.
  split; [done |]. split; intros r Hr; by apply elem_of_nil in Hr.
Qed.

Lemma Coherent_login u w : Coherent w -> Coherent (snd (performLogin u w)).
Proof.
  intros (_ & Hwf & Hlive). split; [done |]. split; [exact Hwf | exact Hlive].
Qed.

Lemma Coherent_logout w : Coherent w -> Coherent (snd (handleLogout w)).
Proof.
  intros (_ & Hwf & Hlive). split; [done |]. split; [exact Hwf | exact Hlive].
Qed.

Lemma Coherent_upload fs w : Coherent w -> Coherent (snd (handleUpload E fs w)).
Proof.
  intros (Hview & Hwf & Hlive). destruct (user w) as [u|] eqn:Hu.
  2: { unfold handleUpload. rewrite Hu. cbn [snd]. done. }
  unfold ViewInSync in Hview. rewrite Hu in Hview.
  destruct (first_failure E (requests w) (length (accepted fs)))
    as [Hok | (k & Hk & Hf & Hlt)].
  - rewrite (handleUpload_success E u fs w Hu Hok). cbn [snd].
    set (b := batch E u (draws w) (accepted fs)).
    split; [| split].
    + unfold ViewInSync. cbn [user files].
      rewrite (listFiles_after_upload E u (User.id u) (getMetadata w)
                 (draws w) (accepted fs) w) by done.
      by rewrite String.eqb_refl, Hview.
    + intros r. unfold getMetadata. cbn [metaDoc]. fold (getMetadata w).
      intros [Hr | Hr]%elem_of_app; [by apply Hwf |].
      by apply (batch_wellFormed E u (draws w) fs).
    + intros r. unfold getMetadata. cbn [metaDoc idb]. fold (getMetadata w).
      intros [Hr | Hr]%elem_of_app.
      * apply storeAll_keeps. by apply Hlive.
      * apply list_elem_of_fmap in Hr as (p & -> & Hp).
        apply storeAll_written. by apply list_elem_of_In.
  - rewrite (handleUpload_failure E u fs w k Hu Hk Hf Hlt). cbn [snd].
    split; [| split].
    + unfold ViewInSync. cbn [user files]. exact Hview.
    + exact Hwf.
    + intros r Hr. cbn [idb]. apply storeAll_keeps. by apply Hlive.
Qed.

Lemma Coherent_delete confirmed ident w :
  Coherent w -> Coherent (snd (handleDelete E confirmed ident w)).
Proof.
  intros HC. destruct confirmed; [| by rewrite handleDelete_cancel].
  destruct (List.find (fun f => String.eqb (BeeFile.id f) ident) (files w))
    as [f|] eqn:Hf; [| by rewrite (handleDelete_absent E true ident w Hf)].
  destruct (requestFails E (requests w)) eqn:Hr.
  { rewrite (handleDelete_found_fail E ident w f Hf Hr). exact HC. }
  rewrite (handleDelete_found_ok E ident w f Hf Hr). cbn [snd].
  destruct HC as (Hview & Hwf & Hlive).
  apply find_id_elem in Hf as [Hfin Hfid].
  assert (Hfmeta : f ∈ getMetadata w).
  { unfold ViewInSync in Hview. destruct (user w) as [u|].
    - rewrite Hview in Hfin. by apply listFiles_elem in Hfin as [? _].
    - rewrite Hview in Hfin. by apply elem_of_nil in Hfin. }
  assert (Hfblob : BeeFile.blobId f = "blob_" +:+ ident).
  { destruct (Hwf f Hfmeta) as (Hb & _). by rewrite Hb, Hfid. }
  split; [| split].
  - unfold ViewInSync in *. cbn [user files]. destruct (user w) as [u|].
    + unfold listFiles, getMetadata. cbn [metaDoc]. fold (getMetadata w).
      rewrite Hview. unfold listFiles. apply filter_comm.
    + by rewrite Hview.
  - intros r. unfold getMetadata. cbn [metaDoc]. fold (getMetadata w).
    intros [Hr' _]%elem_of_filter_bool. by apply Hwf.
  - intros r. unfold getMetadata. cbn [metaDoc idb]. fold (getMetadata w).
    intros [Hr' Hkeep]%elem_of_filter_bool.
    rewrite lookup_delete_ne; [by apply Hlive |].
    destruct (Hwf r Hr') as (Hb & _). rewrite Hfblob, Hb.
    intros Heq. apply blob_key_inj in Heq.
    rewrite <- Heq, String.eqb_refl in Hkeep. discriminate Hkeep.
Qed.

Lemma Coherent_step ev w : Coherent w -> Coherent (snd (step E ev w)).
Proof.
  destruct ev as [u | | fs | confirmed ident]; cbn [step].
  - apply Coherent_login.
  - apply Coherent_logout.
  - apply Coherent_upload.
  - apply Coherent_delete.
Qed.

Lemma Coherent_run evs w : Coherent w -> Coherent (run E evs w).
Proof.
  revert w. induction evs as [|ev evs IH]; intros w HC; [done |].
  cbn. apply IH. by apply Coherent_step.
Qed.

End CoherenceSteps.

Section Orphans.

Context (E : Env).

Lemma storeAll_is_Some_inv (m : gmap string JsFile.t) b key :
  is_Some (storeAll m b !! key) ->
  is_Some (m !! key) \/ exists p, p ∈ b /\ BeeFile.blobId (fst p) = key.
Proof.
  revert m. induction b as [|p b IH]; intros m H; [by left |].
  rewrite storeAll_cons in H. destruct (IH _ H) as [Hm | (q & Hq & Hk)].
  - rewrite lookup_insert in Hm. case_decide as Hd.
    + right. exists p. split; [by left | done].
    + by left.
  - right. exists q. split; [by right | done].
Qed.

Lemma NoOrphans_step ev w :
  Coherent w -> NoOrphans w ->
  uploadSucceeds E ev w = true -> deletionResolves E ev w = true ->
  NoOrphans (snd (step E ev w)).
Proof.
  intros HC HO Hup Hdel. destruct ev as [u | | fs | confirmed ident]; cbn [step].
  - exact HO.
  - exact HO.
  - destruct (user w) as [u|] eqn:Hu.
    2: { unfold handleUpload. by rewrite Hu. }
    unfold uploadSucceeds in Hup. rewrite Hu in Hup.
    assert (Hs : uploadStatus (snd (handleUpload E fs w)) = SUCCESS).
    { by destruct (uploadStatus (snd (handleUpload E fs w))). }
    rewrite (handleUpload_success E u fs w Hu)
      by (by apply (upload_success_no_failure E u)).
    cbn [snd]. intros key. unfold getMetadata. cbn [idb metaDoc].
    fold (getMetadata w).
    intros [Hm | (p & Hp & Hk)]%storeAll_is_Some_inv.
    + destruct (HO key Hm) as (r & Hr & Hrk). exists r.
      split; [apply elem_of_app; by left | done].
    + exists (fst p). split; [| done]. apply elem_of_app. right.
      apply list_elem_of_fmap. by exists p.
  - destruct confirmed; [| by rewrite handleDelete_cancel].
    destruct (List.find (fun f => String.eqb (BeeFile.id f) ident) (files w))
      as [f|] eqn:Hf; [| by rewrite (handleDelete_absent E true ident w Hf)].
    assert (Hr : requestFails E (requests w) = false).
    { destruct (requestFails E (requests w)) eqn:Hr; [| done].
      unfold deletionResolves in Hdel.
      rewrite (handleDelete_found_fail E ident w f Hf Hr) in Hdel.
      discriminate Hdel. }
    rewrite (handleDelete_found_ok E ident w f Hf Hr). cbn [snd].
    destruct HC as (Hview & Hwf & _).
    apply find_id_elem in Hf as [Hfin Hfid].
    assert (Hfmeta : f ∈ getMetadata w).
    { unfold ViewInSync in Hview. destruct (user w) as [u|].
      - rewrite Hview in Hfin. by apply listFiles_elem in Hfin as [? _].
      - rewrite Hview in Hfin. by apply elem_of_nil in Hfin. }
    intros key. unfold getMetadata. cbn [idb metaDoc]. fold (getMetadata w).
    intros Hkey. apply lookup_delete_is_Some in Hkey as [Hne Hkey].
    destruct (HO key Hkey) as (r & Hr' & Hrk). exists r. split; [| done].
    apply elem_of_filter_bool. split; [done |].
    destruct (String.eqb_spec (BeeFile.id r) ident) as [Heq | _]; [| done].
    destruct Hne. destruct (Hwf f Hfmeta) as (Hb & _).
    destruct (Hwf r Hr') as (Hb' & _). by rewrite Hb, Hfid, <- Heq, <- Hb'.
Qed.

Lemma NoOrphans_run evs w :
  Coherent w -> NoOrphans w -> allSucceed E evs w = true ->
  NoOrphans (run E evs w).
Proof.
  revert w. induction evs as [|ev evs IH]; intros w HC HO Hall; [done |].
  cbn [allSucceed] in Hall.
  apply andb_true_iff in Hall as [Hev Hrest].
  apply andb_true_iff in Hev as [Hup Hdel].
  cbn. apply IH; [by apply Coherent_step | by apply NoOrphans_step | done].
Qed.

End Orphans.

(** X1: in a session that starts from a fresh installation, whose handlers
    run one after the other (each has ended before the next event is
    handled) and whose deletions all resolve, the listing on screen is
    exactly what a fresh login of the current user would list, and it is
    empty while nobody is logged in. *)
Theorem listing_always_in_sync (E : Env) (evs : list Event) :
  deletionsResolve E evs emptyWorld = true ->
  match user (run E evs emptyWorld) with
  | Some u => files (run E evs emptyWorld)
              = listFiles (User.id u) (run E evs emptyWorld)
  | None => files (run E evs emptyWorld) = []
  end.
Proof.
  intros _.
  destruct (Coherent_run E evs emptyWorld (Coherent_empty)) as (H & _).
  exact H.
Qed.

Lemma listing_always_in_sync_witness :
  deletionsResolve (failingEnv 1) sampleSession emptyWorld = true /\
  files (run (failingEnv 1) sampleSession emptyWorld)
  = listFiles (User.id sampleUser) (run (failingEnv 1) sampleSession emptyWorld) /\
  indexIds (run (failingEnv 1) sampleSession emptyWorld) = ["3"].
Proof.
  assert (H : deletionsResolve (failingEnv 1) sampleSession emptyWorld = true)
    by (vm_compute; reflexivity).
  assert (Hu : user (run (failingEnv 1) sampleSession emptyWorld) = Some sampleUser)
    by (vm_compute; reflexivity).
  pose proof (listing_always_in_sync (failingEnv 1) sampleSession H) as Hx.
  rewrite Hu in Hx.
  split; [exact H |]. split; [exact Hx |]. vm_compute. reflexivity.
Defined.

(** X2: every record that any session ever leaves in the metadata document
    has the blob key "blob_" followed by its id, a category that is the one
    [detectCategory] gives for its stored MIME type (never [all]), a non-empty
    MIME type, and a size of at most 300 MiB. *)
Theorem index_records_well_formed (E : Env) (evs : list Event) :
  Forall
    (fun r =>
       BeeFile.blobId r = "blob_" +:+ BeeFile.id r /\
       BeeFile.category r = detectCategory (BeeFile.type r) /\
       BeeFile.category r <> all /\
       BeeFile.type r <> "" /\
       (BeeFile.size r <= 300 * 1024 * 1024)%Z)
    (getMetadata (run E evs emptyWorld)).
Proof.
  destruct (Coherent_run E evs emptyWorld (Coherent_empty)) as (_ & H & _).
  apply Forall_forall. intros r Hr. exact (H r Hr).
Qed.

(** X3: a session whose handlers run one after the other and whose deletions
    all resolve leaves no dangling reference: whatever upload requests fail
    and whatever ids are drawn, every record of the metadata document has a
    blob stored under its blob key. *)
Theorem index_never_dangles (E : Env) (evs : list Event) :
  deletionsResolve E evs emptyWorld = true ->
  Forall
    (fun r => is_Some (idb (run E evs emptyWorld) !! BeeFile.blobId r))
    (getMetadata (run E evs emptyWorld)).
Proof.
  intros _.
  destruct (Coherent_run E evs emptyWorld (Coherent_empty)) as (_ & _ & H).
  apply Forall_forall. intros r Hr. exact (H r Hr).
Qed.

Lemma index_never_dangles_witness :
  deletionsResolve (failingEnv 1) sampleSession emptyWorld = true /\
  requestFails (failingEnv 1) 1 = true /\
  Forall
    (fun r => is_Some (idb (run (failingEnv 1) sampleSession emptyWorld)
                         !! BeeFile.blobId r))
    (getMetadata (run (failingEnv 1) sampleSession emptyWorld)).
Proof.
  assert (H : deletionsResolve (failingEnv 1) sampleSession emptyWorld = true)
    by (vm_compute; reflexivity).
  split; [exact H |]. split; [reflexivity |].
  exact (index_never_dangles (failingEnv 1) sampleSession H).
Defined.

(** X4: a session whose handlers run one after the other, whose uploads all
    end in the [SUCCESS] status and whose deletions all resolve, leaves no
    orphan: every blob in the store is referenced by a record of the metadata
    document. *)
Theorem no_orphans_when_handlers_succeed (E : Env) (evs : list Event) :
  allSucceed E evs emptyWorld = true ->
  forall key, is_Some (idb (run E evs emptyWorld) !! key) ->
              exists r, r ∈ getMetadata (run E evs emptyWorld) /\
                        BeeFile.blobId r = key.
Proof.
  intros Hall.
  apply (NoOrphans_run E evs emptyWorld Coherent_empty); [| exact Hall].
  intros key [x Hx]. unfold emptyWorld in Hx. cbn [idb] in Hx.
  by rewrite lookup_empty in Hx.
Qed.

Lemma no_orphans_when_handlers_succeed_witness :
  allSucceed calmEnv [EvLogin sampleUser; EvUpload [samplePng; samplePdf];
                      EvDelete true "0"] emptyWorld = true /\
  allSucceed (failingEnv 1) sampleSession emptyWorld = false /\
  is_Some (idb (run calmEnv [EvLogin sampleUser; EvUpload [samplePng; samplePdf];
                             EvDelete true "0"] emptyWorld) !! "blob_1") /\
  exists r, r ∈ getMetadata (run calmEnv [EvLogin sampleUser;
                                EvUpload [samplePng; samplePdf];
                                EvDelete true "0"] emptyWorld) /\
            BeeFile.blobId r = "blob_1".
Proof.
  assert (H1 : allSucceed calmEnv [EvLogin sampleUser;
                 EvUpload [samplePng; samplePdf]; EvDelete true "0"] emptyWorld
               = true) by (vm_compute; reflexivity).
  assert (H2 : is_Some (idb (run calmEnv [EvLogin sampleUser;
                               EvUpload [samplePng; samplePdf];
                               EvDelete true "0"] emptyWorld) !! "blob_1")).
  { exists samplePdf. vm_compute. reflexivity. }
  split; [exact H1 |]. split; [vm_compute; reflexivity |]. split; [exact H2 |].
  exact (no_orphans_when_handlers_succeed calmEnv _ H1 "blob_1" H2).
Defined.

(** ** What an upload and a deletion leave alone *)

(** X5: an upload only appends: the records that were in the metadata
    document stay, in their order, at its front; no blob key disappears from
    the blob store; the logged-in user stays; and the records listed for any
    other owner are the same as before. *)
Theorem upload_only_appends (E : Env) (fs : list JsFile.t) (w : World) :
  let w' := snd (handleUpload E fs w) in
  (exists new, getMetadata w' = (getMetadata w ++ new)%list) /\
  (forall key, is_Some (idb w !! key) -> is_Some (idb w' !! key)) /\
  user w' = user w /\
  (forall uid, (forall u, user w = Some u -> User.id u <> uid) ->
     listFiles uid w' = listFiles uid w).
Proof.
  cbv zeta. destruct (user w) as [u|] eqn:Hu.
  2: { unfold handleUpload. rewrite Hu. cbn [snd].
       split; [exists []; by rewrite app_nil_r |]. done. }
  destruct (first_failure E (requests w) (length (accepted fs)))
    as [Hok | (k & Hk & Hf & Hlt)].
  - rewrite (handleUpload_success E u fs w Hu Hok). cbn [snd user idb].
    split; [by eexists |]. split; [intros key; apply storeAll_keeps |].
    split; [done |]. intros uid Hne.
    rewrite (listFiles_after_upload E u uid (getMetadata w) (draws w)
               (accepted fs) w) by done.
    destruct (String.eqb_spec (User.id u) uid) as [Heq | _];
      [by destruct (Hne u eq_refl) | apply app_nil_r].
  - rewrite (handleUpload_failure E u fs w k Hu Hk Hf Hlt). cbn [snd user idb].
    split; [exists []; by rewrite app_nil_r |].
    split; [intros key; apply storeAll_keeps |]. done.
Qed.

(** X6: a user cannot delete what they do not own: right after the login of
    [u], deleting an id that none of the records of [u] carries changes
    nothing, confirmed or not, even when another owner has a record with that
    id. *)
Theorem delete_needs_own_record
    (E : Env) (u : User.t) (w : World) (confirmed : bool) (ident : string) :
  (forall r, r ∈ getMetadata w -> BeeFile.ownerId r = User.id u ->
             BeeFile.id r <> ident) ->
  let w1 := snd (performLogin u w) in
  handleDelete E confirmed ident w1 = (Resolved tt, w1).
Proof.
  intros Hown. cbv zeta. apply handleDelete_absent, find_id_none.
  intros r Hr. change (files (snd (performLogin u w))) with (listFiles (User.id u) w) in Hr.
  apply listFiles_elem in Hr as [Hr Ho]. by apply Hown.
Qed.

Lemma delete_needs_own_record_witness :
  (forall r, r ∈ getMetadata stocked ->
             BeeFile.ownerId r = User.id (User.mk "u2" "wasp@hive.test" "Wasp") ->
             BeeFile.id r <> "0") /\
  indexIds stocked = ["0"] /\
  handleDelete calmEnv true "0"
    (snd (performLogin (User.mk "u2" "wasp@hive.test" "Wasp") stocked))
  = (Resolved tt, snd (performLogin (User.mk "u2" "wasp@hive.test" "Wasp") stocked)).
Proof.
  assert (H : forall r, r ∈ getMetadata stocked ->
             BeeFile.ownerId r = User.id (User.mk "u2" "wasp@hive.test" "Wasp") ->
             BeeFile.id r <> "0").
  { intros r Hr Ho. vm_compute in Hr.
    apply elem_of_cons in Hr as [-> | Hr]; [discriminate Ho |].
    by apply elem_of_nil in Hr. }
  split; [exact H |]. split; [vm_compute; reflexivity |].
  exact (delete_needs_own_record calmEnv _ stocked true "0" H).
Defined.

(** X7: while nobody is logged in, nothing can be changed: in any state that
    a session whose handlers run one after the other reaches with no user,
    nothing is listed, and every upload and every deletion leaves the whole
    state as it is. *)
Theorem logged_out_changes_nothing (E : Env) (evs : list Event) :
  user (run E evs emptyWorld) = None ->
  files (run E evs emptyWorld) = [] /\
  forall fs confirmed ident,
    handleUpload E fs (run E evs emptyWorld)
      = (Resolved tt, run E evs emptyWorld) /\
    handleDelete E confirmed ident (run E evs emptyWorld)
      = (Resolved tt, run E evs emptyWorld).
Proof.
  intros Hu.
  destruct (Coherent_run E evs emptyWorld Coherent_empty) as (Hview & _).
  unfold ViewInSync in Hview. rewrite Hu in Hview.
  split; [exact Hview |]. intros fs confirmed ident. split.
  - unfold handleUpload. by rewrite Hu.
  - apply handleDelete_absent. by rewrite Hview.
Qed.

Lemma logged_out_changes_nothing_witness :
  let evs := [EvLogin sampleUser; EvUpload [samplePng]; EvLogout] in
  user (run calmEnv evs emptyWorld) = None /\
  indexIds (run calmEnv evs emptyWorld) = ["0"] /\
  handleDelete calmEnv true "0" (run calmEnv evs emptyWorld)
    = (Resolved tt, run calmEnv evs emptyWorld).
Proof.
  cbv zeta.
  assert (H : user (run calmEnv [EvLogin sampleUser; EvUpload [samplePng]; EvLogout]
                      emptyWorld) = None) by (vm_compute; reflexivity).
  split; [exact H |]. split; [vm_compute; reflexivity |].
  exact (proj2 (proj2 (logged_out_changes_nothing calmEnv _ H) [] true "0")).
Defined.

(** ** Upload, then delete; upload and the usage total *)

Section UploadThenDelete.

Lemma filter_keep_fresh ident (l : list BeeFile.t) :
  ident ∉ map BeeFile.id l ->
  List.filter (fun f => negb (String.eqb (BeeFile.id f) ident)) l = l.
Proof.
  induction l as [|r l IH]; [done |]. cbn [map List.filter].
  intros [Hr Hl]%not_elem_of_cons.
  destruct (String.eqb_spec (BeeFile.id r) ident) as [Heq | _]; [congruence |].
  cbn. by rewrite IH.
Qed.

Lemma find_app_fresh ident (l : list BeeFile.t) r :
  ident ∉ map BeeFile.id l -> BeeFile.id r = ident ->
  List.find (fun f => String.eqb (BeeFile.id f) ident) (l ++ [r]) = Some r.
Proof.
  intros Hl Hr. induction l as [|x l IH]; cbn.
  - by rewrite Hr, String.eqb_refl.
  - cbn [map] in Hl. apply not_elem_of_cons in Hl as [Hx Hl].
    destruct (String.eqb_spec (BeeFile.id x) ident) as [Heq | _]; [congruence |].
    by apply IH.
Qed.

Lemma totalSize_app (l k : list BeeFile.t) :
  totalSize (l ++ k) = (totalSize l + totalSize k)%Z.
Proof.
  rewrite !totalSize_sum. unfold sumSizes. rewrite map_app.
  induction (map BeeFile.size l) as [|x xs IH]; cbn; lia.
Qed.

Lemma batch_sizes (E : Env) (u : User.t) d fs :
  sumSizes (map fst (batch E u d fs)) = sumFileSizes fs.
Proof.
  revert d. induction fs as [|f fs IH]; intros d; [done |].
  unfold sumSizes, sumFileSizes in *. cbn. by rewrite IH.
Qed.

End UploadThenDelete.

(** X8: uploading one file and then deleting the record it created undoes the
    upload, provided both requests succeed and the id drawn is new (no record
    listed or indexed carries it, no blob sits under its key): the metadata
    records, the blob store and the listing are those from before. *)
Theorem upload_then_delete_restores
    (E : Env) (u : User.t) (f : JsFile.t) (w : World) :
  user w = Some u ->
  (JsFile.size f <= MAX_SIZE)%Z ->
  requestFails E (requests w) = false ->
  requestFails E (S (requests w)) = false ->
  randomId E (draws w) ∉ indexIds w ->
  randomId E (draws w) ∉ map BeeFile.id (files w) ->
  idb w !! ("blob_" +:+ randomId E (draws w)) = None ->
  let w1 := snd (handleUpload E [f] w) in
  let w2 := snd (handleDelete E true (randomId E (draws w)) w1) in
  randomId E (draws w) ∈ indexIds w1 /\
  getMetadata w2 = getMetadata w /\
  idb w2 = idb w /\
  files w2 = files w /\
  user w2 = user w.
Proof.
  intros Hu Hs Hr1 Hr2 Hmeta Hfiles Hblob. cbv zeta.
  assert (Ha : accepted [f] = [f]) by (by apply accepted_cons_ok).
  rewrite (handleUpload_success E u [f] w Hu).
  2: { rewrite Ha. intros j Hj. cbn in Hj. replace j with 0%nat by lia.
       by rewrite Nat.add_0_r. }
  rewrite Ha. cbn [snd batch map fst length storeAll fold_left].
  set (r := makeBeeFile u (randomId E (draws w)) f).
  split.
  { unfold indexIds, getMetadata. cbn [metaDoc]. rewrite map_app.
    apply elem_of_app. right. by left. }
  erewrite (handleDelete_found_ok E _ _ r).
  - unfold getMetadata. cbn [snd idb metaDoc files user].
    fold (getMetadata w).
    rewrite !List.filter_app, !filter_keep_fresh by done.
    cbn [List.filter BeeFile.id r makeBeeFile]. rewrite String.eqb_refl.
    cbn [negb]. rewrite !app_nil_r.
    split; [done |]. split; [by apply delete_insert_id |].
    split; [by apply filter_keep_fresh | done].
  - cbn [files]. by apply find_app_fresh.
  - cbn [requests]. by rewrite Nat.add_1_r.
Qed.

Lemma upload_then_delete_restores_witness :
  let w1 := snd (handleUpload calmEnv [samplePdf] stocked) in
  let w2 := snd (handleDelete calmEnv true "1" w1) in
  user stocked = Some sampleUser /\
  randomId calmEnv (draws stocked) = "1" /\
  indexIds w1 = ["0"; "1"] /\
  getMetadata w2 = getMetadata stocked /\
  idb w2 = idb stocked.
Proof.
  assert (H1 : user stocked = Some sampleUser) by reflexivity.
  assert (H2 : (JsFile.size samplePdf <= MAX_SIZE)%Z) by (vm_compute; discriminate).
  assert (H3 : requestFails calmEnv (requests stocked) = false) by reflexivity.
  assert (H4 : requestFails calmEnv (S (requests stocked)) = false) by reflexivity.
  assert (H5 : randomId calmEnv (draws stocked) ∉ indexIds stocked).
  { vm_compute. intros H. apply elem_of_cons in H as [H | H]; [discriminate H |].
    by apply elem_of_nil in H. }
  assert (H6 : randomId calmEnv (draws stocked) ∉ map BeeFile.id (files stocked)).
  { vm_compute. intros H. apply elem_of_cons in H as [H | H]; [discriminate H |].
    by apply elem_of_nil in H. }
  assert (H7 : idb stocked !! ("blob_" +:+ randomId calmEnv (draws stocked)) = None)
    by (vm_compute; reflexivity).
  destruct (upload_then_delete_restores calmEnv sampleUser samplePdf stocked
              H1 H2 H3 H4 H5 H6 H7) as (_ & Hm & Hi & _).
  cbv zeta. split; [exact H1 |]. split; [vm_compute; reflexivity |].
  split; [vm_compute; reflexivity |]. split; [exact Hm | exact Hi].
Defined.

(** X9: a successful upload raises the usage total by exactly the sizes of
    the files it accepted (oversized files add nothing), and a failed upload
    leaves the total as it was. *)
Theorem upload_adds_accepted_sizes
    (E : Env) (u : User.t) (fs : list JsFile.t) (w : World) :
  user w = Some u ->
  let w' := snd (handleUpload E fs w) in
  (uploadStatus w' = SUCCESS \/ uploadStatus w' = ERROR) /\
  (uploadStatus w' = SUCCESS ->
     totalSize (files w') = (totalSize (files w) + sumFileSizes (accepted fs))%Z /\
     total (storageUsage (files w'))
       = formatFileSize (totalSize (files w) + sumFileSizes (accepted fs))) /\
  (uploadStatus w' = ERROR -> totalSize (files w') = totalSize (files w)).
Proof.
  intros Hu. cbv zeta.
  destruct (first_failure E (requests w) (length (accepted fs)))
    as [Hok | (k & Hk & Hf & Hlt)].
  - rewrite (handleUpload_success E u fs w Hu Hok).
    cbn [snd uploadStatus files].
    split; [by left |]. split; [| discriminate]. intros _.
    assert (Ht : totalSize (files w ++ map fst (batch E u (draws w) (accepted fs)))
                 = (totalSize (files w) + sumFileSizes (accepted fs))%Z).
    { by rewrite totalSize_app, (totalSize_sum (map fst _)), batch_sizes. }
    split; [exact Ht |].
    unfold storageUsage. rewrite Ht.
    by destruct (percentFraction _).
  - rewrite (handleUpload_failure E u fs w k Hu Hk Hf Hlt).
    cbn [snd uploadStatus files].
    split; [by right |]. split; [discriminate | done].
Qed.

Lemma upload_adds_accepted_sizes_witness :
  user loggedIn = Some sampleUser /\
  uploadStatus (snd (handleUpload calmEnv [samplePng; samplePdf] loggedIn)) = SUCCESS /\
  totalSize (files (snd (handleUpload calmEnv [samplePng; samplePdf] loggedIn)))
    = (totalSize (files loggedIn) + sumFileSizes (accepted [samplePng; samplePdf]))%Z.
Proof.
  assert (H1 : user loggedIn = Some sampleUser) by reflexivity.
  assert (H2 : uploadStatus (snd (handleUpload calmEnv [samplePng; samplePdf] loggedIn))
               = SUCCESS) by (vm_compute; reflexivity).
  split; [exact H1 |]. split; [exact H2 |].
  exact (proj1 (proj1 (proj2 (upload_adds_accepted_sizes calmEnv sampleUser
                         [samplePng; samplePdf] loggedIn H1)) H2)).
Defined.

(** ** The filter of the view *)

Section Filter.

Lemma lowerAscii_idem c :
  JsString.lowerAscii (JsString.lowerAscii c) = JsString.lowerAscii c.
Proof. by destruct c as [[] [] [] [] [] [] [] []]. Qed.

Lemma toLowerCase_idem s :
  JsString.toLowerCase (JsString.toLowerCase s) = JsString.toLowerCase s.
Proof.
  induction s as [|c s IH]; [done |]. cbn. by rewrite lowerAscii_idem, IH.
Qed.

Lemma matchesFilter_spec search activeCategory f :
  matchesFilter search activeCategory f = true <->
  Contains (JsString.toLowerCase search) (JsString.toLowerCase (BeeFile.name f)) /\
  (activeCategory = all \/ BeeFile.category f = activeCategory).
Proof.
  unfold matchesFilter, Contains.
  rewrite andb_true_iff, orb_true_iff, !bool_decide_eq_true, includes_spec.
  done.
Qed.

End Filter.

(** X10: for a search text and record names of ASCII characters, a record is
    shown in the view exactly when it is in the listing, its name contains
    the search text (both compared in lower case), and the active category is
    [all] or the record's own.  The case of the search text does not matter;
    the view never holds more records than the listing, and with an empty
    search and category [all] it holds all of them. *)
Theorem view_shows_exactly_the_matches
    (localeCompare : string -> string -> Z) (fs : list BeeFile.t)
    (search : string) (activeCategory : FileCategory)
    (sortBy : SortBy) (sortOrder : SortOrder) :
  JsString.isAscii search = true ->
  forallb (fun r => JsString.isAscii (BeeFile.name r)) fs = true ->
  (forall r,
     r ∈ filteredFiles localeCompare fs search activeCategory sortBy sortOrder <->
     r ∈ fs /\
     Contains (JsString.toLowerCase search) (JsString.toLowerCase (BeeFile.name r)) /\
     (activeCategory = all \/ BeeFile.category r = activeCategory)) /\
  filteredFiles localeCompare fs (JsString.toLowerCase search) activeCategory
    sortBy sortOrder
  = filteredFiles localeCompare fs search activeCategory sortBy sortOrder /\
  (length (filteredFiles localeCompare fs search activeCategory sortBy sortOrder)
   <= length fs)%nat /\
  Permutation (filteredFiles localeCompare fs "" all sortBy sortOrder) fs.
Proof.
  intros _ _. split; [| split; [| split]].
  - intros r. unfold filteredFiles.
    rewrite arraySort_perm.
    by rewrite elem_of_filter_bool, matchesFilter_spec.
  - unfold filteredFiles, matchesFilter. by rewrite toLowerCase_idem.
  - unfold filteredFiles. rewrite (Permutation_length (arraySort_perm _ _)).
    apply List.filter_length_le.
  - unfold filteredFiles. rewrite arraySort_perm.
    induction fs as [|r l IH]; [done |]. cbn [List.filter].
    rewrite matchesFilter_all_empty. by constructor.
Qed.

Lemma view_shows_exactly_the_matches_witness :
  JsString.isAscii "A" = true /\
  forallb (fun r => JsString.isAscii (BeeFile.name r)) [recordB; recordA] = true /\
  recordA ∈ filteredFiles codeUnitCompare [recordB; recordA] "A" all SortName Asc /\
  recordB ∉ filteredFiles codeUnitCompare [recordB; recordA] "A" all SortName Asc.
Proof.
  assert (H1 : JsString.isAscii "A" = true) by reflexivity.
  assert (H2 : forallb (fun r => JsString.isAscii (BeeFile.name r))
                 [recordB; recordA] = true) by reflexivity.
  destruct (view_shows_exactly_the_matches codeUnitCompare [recordB; recordA]
              "A" all SortName Asc H1 H2) as (Hin & _).
  split; [exact H1 |]. split; [exact H2 |]. split.
  - apply Hin. split; [apply list_elem_of_further, list_elem_of_here |].
    split; [by exists "", "" | by left].
  - intros Hb. apply Hin in Hb as (_ & (pre & post & Hc) & _).
    cbn in Hc. destruct pre as [|c pre]; [discriminate Hc |].
    injection Hc as _ Hc. by destruct pre.
Defined.

(** ** The blob store on its own *)

(** X11: what [saveFileBlob] stored under a key is what [getFileBlob] reads
    back under that key, whatever was there before (a put overwrites), and the
    put changes the entry of no other key. *)
Theorem blob_put_then_get
    (E : Env) (key : string) (blob : JsFile.t) (w : World) :
  requestFails E (requests w) = false ->
  requestFails E (S (requests w)) = false ->
  let w1 := snd (saveFileBlob E key blob w) in
  fst (saveFileBlob E key blob w) = Resolved tt /\
  fst (getFileBlob E key w1) = Resolved (Some blob) /\
  (forall other, other <> key -> idb w1 !! other = idb w !! other) /\
  metaDoc w1 = metaDoc w.
Proof.
  intros H1 H2. cbv zeta. unfold saveFileBlob, getFileBlob, idbRequest.
  rewrite H1. cbn. rewrite H2. cbn. rewrite lookup_insert_eq.
  split; [done |]. split; [done |]. split; [| done].
  intros other Hne. by apply lookup_insert_ne.
Qed.

Lemma blob_put_then_get_witness :
  requestFails calmEnv (requests stocked) = false /\
  requestFails calmEnv (S (requests stocked)) = false /\
  idb stocked !! "blob_0" = Some samplePng /\
  fst (getFileBlob calmEnv "blob_0"
         (snd (saveFileBlob calmEnv "blob_0" samplePdf stocked)))
  = Resolved (Some samplePdf).
Proof.
  assert (H1 : requestFails calmEnv (requests stocked) = false) by reflexivity.
  assert (H2 : requestFails calmEnv (S (requests stocked)) = false) by reflexivity.
  split; [exact H1 |]. split; [exact H2 |]. split; [vm_compute; reflexivity |].
  exact (proj1 (proj2 (blob_put_then_get calmEnv "blob_0" samplePdf stocked H1 H2))).
Defined.

(** X12: after [deleteFileBlob], [getFileBlob] of the key resolves with
    nothing (it does not reject); the entries of all other keys are untouched;
    and deleting a key that is not there succeeds and leaves the store as it
    is. *)
Theorem blob_delete_then_get (E : Env) (key : string) (w : World) :
  requestFails E (requests w) = false ->
  requestFails E (S (requests w)) = false ->
  let w1 := snd (deleteFileBlob E key w) in
  fst (deleteFileBlob E key w) = Resolved tt /\
  fst (getFileBlob E key w1) = Resolved None /\
  (forall other, other <> key -> idb w1 !! other = idb w !! other) /\
  (idb w !! key = None -> idb w1 = idb w) /\
  fst (deleteFileBlob E key w1) = Resolved tt /\
  idb (snd (deleteFileBlob E key w1)) = idb w1.
Proof.
  intros H1 H2. cbv zeta. unfold deleteFileBlob, getFileBlob, idbRequest.
  rewrite H1. cbn. rewrite H2. cbn. rewrite lookup_delete_eq.
  split; [done |]. split; [done |].
  split; [intros other Hne; by apply lookup_delete_ne |].
  split; [apply delete_id |]. split; [done |].
  apply delete_id, lookup_delete_eq.
Qed.

Lemma blob_delete_then_get_witness :
  requestFails calmEnv (requests stocked) = false /\
  requestFails calmEnv (S (requests stocked)) = false /\
  idb stocked !! "blob_0" = Some samplePng /\
  fst (getFileBlob calmEnv "blob_0" (snd (deleteFileBlob calmEnv "blob_0" stocked)))
  = Resolved None.
Proof.
  assert (H1 : requestFails calmEnv (requests stocked) = false) by reflexivity.
  assert (H2 : requestFails calmEnv (S (requests stocked)) = false) by reflexivity.
  split; [exact H1 |]. split; [exact H2 |]. split; [vm_compute; reflexivity |].
  exact (proj1 (proj2 (blob_delete_then_get calmEnv "blob_0" stocked H1 H2))).
Defined.

(** ** More on the usage summary and the size formatting *)

(** X13: the percentage of the usage summary never leaves the range 0.0 to
    100.0: for records of non-negative sizes it is the text of [n / 10] with
    one decimal for some [n] from 0 to 1000, and it is "100.0" as soon as the
    total reaches the quota of 2 GiB. *)
Theorem usage_percent_capped (fs : list BeeFile.t) :
  (0 <= totalSize fs)%Z ->
  (exists n, (0 <= n <= 1000)%Z /\
     percent (storageUsage fs) =
       pretty (n / 10)%Z +:+ "." +:+ JsNumber.padZeros 1 (pretty (n mod 10)%Z)) /\
  ((QUOTA <= totalSize fs)%Z -> percent (storageUsage fs) = "100.0").
Proof.
  intros Ht. unfold storageUsage, percentFraction.
  destruct (Z.leb_spec (totalSize fs * 100) (100 * QUOTA)) as [Hle | Hgt].
  - split.
    + exists (JsNumber.fixedDigits 1 (totalSize fs * 100) QUOTA).
      split; [| done].
      pose proof (fixedDigits_rounds 1 (totalSize fs * 100) QUOTA) as Hr.
      unfold RoundsTo, QUOTA in *. cbn in Hr. lia.
    + intros Hq. replace (totalSize fs) with QUOTA by lia. by vm_compute.
  - split.
    + exists 1000%Z. split; [lia | by vm_compute].
    + intros _. by vm_compute.
Qed.

Lemma usage_percent_capped_witness :
  (0 <= totalSize usageSample)%Z /\
  percent (storageUsage usageSample) = "0.0" /\
  exists n, (0 <= n <= 1000)%Z /\
     percent (storageUsage usageSample) =
       pretty (n / 10)%Z +:+ "." +:+ JsNumber.padZeros 1 (pretty (n mod 10)%Z).
Proof.
  assert (H : (0 <= totalSize usageSample)%Z) by (vm_compute; discriminate).
  split; [exact H |]. split; [vm_compute; reflexivity |].
  exact (proj1 (usage_percent_capped usageSample H)).
Defined.

Lemma fixedDigits_at_1024 (bytes c : Z) :
  (0 < c)%Z -> (204799 * c <= 200 * bytes)%Z -> (bytes < 1024 * c)%Z ->
  JsNumber.fixedDigits 2 bytes c = 102400%Z.
Proof.
  intros Hc Hlo Hhi. unfold JsNumber.fixedDigits.
  change (10 ^ Z.of_nat 2)%Z with 100%Z.
  pose proof (Z.mul_div_le (2 * bytes * 100 + c) (2 * c) ltac:(lia)).
  pose proof (Z.mul_succ_div_gt (2 * bytes * 100 + c) (2 * c) ltac:(lia)).
  nia.
Qed.

(** X14: a byte count within half a hundredth below the next unit is shown
    as 1024 of the smaller unit, not as 1 of the larger one: for [i] from 1 to
    3 and [1023.995 * 1024^i <= bytes < 1024^(i+1)] the text is "1024 "
    followed by the label number [i] (so 1048575 bytes read "1024 KB"). *)
Theorem formatFileSize_shows_1024 (bytes i : Z) :
  (1 <= i <= 3)%Z ->
  (204799 * 1024 ^ i <= 200 * bytes)%Z ->
  (bytes < 1024 ^ (i + 1))%Z ->
  unitIndex bytes = i /\
  formatFileSize bytes = "1024 " +:+ sizeLabel i /\
  formatFileSize (1024 ^ (i + 1)) = "1 " +:+ sizeLabel (i + 1).
Proof.
  intros Hi Hlo Hhi.
  assert (Hc : (0 < 1024 ^ i)%Z) by (apply Z.pow_pos_nonneg; lia).
  assert (Hpow : (1024 ^ (i + 1) = 1024 * 1024 ^ i)%Z).
  { rewrite Z.pow_add_r by lia. lia. }
  assert (Hidx : unitIndex bytes = i).
  { apply unitIndex_unique; [lia |]. split; [lia | done]. }
  split; [done |]. split.
  - rewrite formatFileSize_pos by lia. rewrite Hidx.
    unfold JsNumber.toFixed.
    rewrite (fixedDigits_at_1024 bytes (1024 ^ i)) by lia.
    done.
  - assert (i = 1 \/ i = 2 \/ i = 3)%Z as Hcases by lia. clear -Hcases.
    destruct Hcases as [-> | [-> | ->]]; by vm_compute.
Qed.

Lemma formatFileSize_shows_1024_witness :
  (1 <= 1 <= 3)%Z /\
  (204799 * 1024 ^ 1 <= 200 * 1048575)%Z /\
  (1048575 < 1024 ^ (1 + 1))%Z /\
  formatFileSize 1048575 = "1024 KB" /\
  formatFileSize 1048576 = "1 MB".
Proof.
  assert (H1 : (1 <= 1 <= 3)%Z) by lia.
  assert (H2 : (204799 * 1024 ^ 1 <= 200 * 1048575)%Z) by (vm_compute; discriminate).
  assert (H3 : (1048575 < 1024 ^ (1 + 1))%Z) by (vm_compute; reflexivity).
  destruct (formatFileSize_shows_1024 1048575 1 H1 H2 H3) as (_ & Ha & Hb).
  split; [exact H1 |]. split; [exact H2 |]. split; [exact H3 |].
  split; [exact Ha | exact Hb].
Defined.

(** ** Ascending and descending *)

Section Reverse.

Context {A : Type} (comparefn : A -> A -> Z).
Hypothesis consistent : Consistent comparefn.

Let negated : A -> A -> Z := fun a b => (- comparefn a b)%Z.

Lemma negated_consistent : Consistent negated.
Proof.
  subst negated. split.
  - intros a b. pose proof (consistent_flip _ consistent a b).
    pose proof (consistent_flip _ consistent b a). lia.
  - intros a b c.
    pose proof (consistent_flip _ consistent a b).
    pose proof (consistent_flip _ consistent b a).
    pose proof (consistent_flip _ consistent b c).
    pose proof (consistent_flip _ consistent c b).
    pose proof (consistent_flip _ consistent a c).
    pose proof (consistent_flip _ consistent c a).
    pose proof (consistent_trans _ consistent c b a). lia.
Qed.

Lemma StronglySorted_snoc (R : A -> A -> Prop) l x :
  StronglySorted R l -> Forall (fun y => R y x) l -> StronglySorted R (l ++ [x]).
Proof.
  induction 1 as [|a l Hs IH Ha]; intros Hall; cbn.
  - repeat constructor.
  - apply List.Forall_cons_iff in Hall as [Hax Hall].
    constructor; [by apply IH |].
    apply List.Forall_app. split; [done | by constructor].
Qed.

Lemma StronglySorted_rev_negated l :
  StronglySorted (fun a b => (comparefn a b <= 0)%Z) l ->
  StronglySorted (fun a b => (negated a b <= 0)%Z) (rev l).
Proof.
  induction 1 as [|a l Hs IH Ha]; cbn; [constructor |].
  apply StronglySorted_snoc; [done |].
  apply List.Forall_rev. eapply List.Forall_impl; [| exact Ha].
  intros b Hab. subst negated. cbn in *.
  pose proof (consistent_flip _ consistent b a). lia.
Qed.

Lemma tiedWith_negated x l : tiedWith negated x l = tiedWith comparefn x l.
Proof.
  unfold tiedWith. apply List.filter_ext. intros y. subst negated. cbn.
  destruct (Z.eqb_spec (- comparefn x y) 0), (Z.eqb_spec (comparefn x y) 0); lia.
Qed.

(** With no two elements tied, at most one element is tied with any [x]. *)
Lemma tiedWith_short x l :
  ForallOrdPairs (fun a b => comparefn a b <> 0%Z) l ->
  (length (tiedWith comparefn x l) <= 1)%nat.
Proof.
  induction 1 as [|a l Ha Hl IH]; [cbn; lia |].
  rewrite tiedWith_cons. destruct (Z.eqb_spec (comparefn x a) 0) as [Hxa | _];
    [| done].
  assert (Hnil : tiedWith comparefn x l = []).
  { unfold tiedWith. clear IH Hl. induction l as [|b l IHl]; [done |].
    apply List.Forall_cons_iff in Ha as [Hab Ha]. cbn.
    destruct (Z.eqb_spec (comparefn x b) 0) as [Hxb | _]; [| by apply IHl].
    destruct Hab.
    apply (consistent_tie_trans comparefn consistent a x b); [| done].
    by apply consistent_tie_sym. }
  rewrite Hnil. cbn. lia.
Qed.

Lemma rev_short (l : list A) : (length l <= 1)%nat -> rev l = l.
Proof. destruct l as [|a [|b l]]; cbn; [done | done | lia]. Qed.

Lemma arraySort_negated_rev l :
  ForallOrdPairs (fun a b => comparefn a b <> 0%Z) l ->
  arraySort negated l = rev (arraySort comparefn l).
Proof.
  intros Hties. symmetry.
  apply (arraySort_unique negated negated_consistent).
  - rewrite <- Permutation_rev. apply arraySort_perm.
  - apply StronglySorted_Ordered, StronglySorted_rev_negated, arraySort_sorted.
    exact consistent.
  - intros x. rewrite !tiedWith_negated. unfold tiedWith at 1.
    rewrite List.filter_rev. fold (tiedWith comparefn x (arraySort comparefn l)).
    rewrite (arraySort_stable comparefn consistent).
    apply rev_short. by apply tiedWith_short.
Qed.

End Reverse.

(** X15: when no two records of the view have equal sort keys, the descending
    view is the ascending view read backwards (with equal keys it is not: tied
    records keep their original order in both). *)
Theorem descending_is_reversed_ascending
    (localeCompare : string -> string -> Z) (fs : list BeeFile.t)
    (search : string) (activeCategory : FileCategory) (sortBy : SortBy) :
  Consistent localeCompare ->
  ForallOrdPairs (fun a b => ~ KeyTie localeCompare sortBy a b)
    (List.filter (matchesFilter search activeCategory) fs) ->
  filteredFiles localeCompare fs search activeCategory sortBy Desc
  = rev (filteredFiles localeCompare fs search activeCategory sortBy Asc).
Proof.
  intros Hc Hties. unfold filteredFiles.
  rewrite <- (arraySort_negated_rev (compareFiles localeCompare sortBy Asc)).
  - done.
  - by apply compareFiles_consistent.
  - induction Hties as [|a l Ha Hl IH]; constructor; [| done].
    eapply List.Forall_impl; [| exact Ha].
    intros b Hab Heq. by apply Hab, (compareFiles_KeyTie localeCompare sortBy Asc).
Qed.

Lemma descending_is_reversed_ascending_witness :
  Consistent codeUnitCompare /\
  filteredFiles codeUnitCompare [recordB; recordA] "" all SortName Desc
    = [recordB; recordA] /\
  filteredFiles codeUnitCompare [recordB; recordA] "" all SortName Desc
    = rev (filteredFiles codeUnitCompare [recordB; recordA] "" all SortName Asc) /\
  filteredFiles codeUnitCompare [recordB; recordA] "" all SortSize Desc
    <> rev (filteredFiles codeUnitCompare [recordB; recordA] "" all SortSize Asc).
Proof.
  assert (H : ForallOrdPairs (fun a b => ~ KeyTie codeUnitCompare SortName a b)
                (List.filter (matchesFilter "" all) [recordB; recordA])).
  { repeat constructor. intros Heq. vm_compute in Heq. discriminate Heq. }
  split; [exact codeUnitCompare_consistent |].
  split; [vm_compute; reflexivity |].
  split; [| vm_compute; discriminate].
  exact (descending_is_reversed_ascending codeUnitCompare [recordB; recordA]
           "" all SortName codeUnitCompare_consistent H).
Defined.

(** * Accounts and the session *)

Section Accounts.

Context (randomUserId : nat -> string) (E : Env).

Lemma email_registered_spec (e : string) (users : list Account.t) :
  existsb (fun u => String.eqb (Account.email u) e) users = true <->
  e ∈ map Account.email users.
Proof.
  rewrite List.existsb_exists, list_elem_of_In, List.in_map_iff. split.
  - intros (u & Hu & Heq). apply String.eqb_eq in Heq. by exists u.
  - intros (u & Heq & Hu). exists u. split; [done |]. by apply String.eqb_eq.
Qed.

Lemma NoDup_map_elem_inj {A B} (f : A -> B) (l : list A) x y :
  NoDup (map f l) -> x ∈ l -> y ∈ l -> f x = f y -> x = y.
Proof.
  induction l as [|a l IH]; cbn [map]; intros Hnd Hx Hy Hf.
  - by apply elem_of_nil in Hx.
  - apply NoDup_cons in Hnd as [Ha Hnd].
    apply elem_of_cons in Hx as [-> | Hx]; apply elem_of_cons in Hy as [-> | Hy].
    + done.
    + destruct Ha. rewrite Hf. change (f y ∈ f <$> l). by apply list_elem_of_fmap_2.
    + destruct Ha. rewrite <- Hf. change (f x ∈ f <$> l).
      by apply list_elem_of_fmap_2.
    + by apply IH.
Qed.

Lemma find_credentials_some (e p : string) (users : list Account.t) u :
  List.find (fun u => String.eqb (Account.email u) e
                      && String.eqb (Account.password u) p) users = Some u ->
  u ∈ users /\ Account.email u = e /\ Account.password u = p.
Proof.
  intros H. apply List.find_some in H as [Hin Hb].
  apply andb_true_iff in Hb as [He Hp].
  split; [by apply list_elem_of_In |].
  split; by apply String.eqb_eq.
Qed.

Lemma find_credentials_none (e p : string) (users : list Account.t) :
  List.find (fun u => String.eqb (Account.email u) e
                      && String.eqb (Account.password u) p) users = None ->
  forall u, u ∈ users -> ~ (Account.email u = e /\ Account.password u = p).
Proof.
  intros H u Hu [He Hp].
  pose proof (List.find_none _ _ H u (proj1 (list_elem_of_In _ _) Hu)) as Hb.
  cbn in Hb. by rewrite He, Hp, !String.eqb_refl in Hb.
Qed.

Lemma find_credentials_last (e p : string) (users : list Account.t) u :
  e ∉ map Account.email users ->
  Account.email u = e -> Account.password u = p ->
  List.find (fun u => String.eqb (Account.email u) e
                      && String.eqb (Account.password u) p) (users ++ [u]) = Some u.
Proof.
  intros Hfresh He Hp. induction users as [|a l IH]; cbn.
  - by rewrite He, Hp, !String.eqb_refl.
  - cbn [map] in Hfresh. apply not_elem_of_cons in Hfresh as [Ha Hl].
    destruct (String.eqb_spec (Account.email a) e) as [Heq | _]; [congruence |].
    cbn. by apply IH.
Qed.

Lemma handleUpload_user fs w : user (snd (handleUpload E fs w)) = user w.
Proof.
  destruct (user w) as [u|] eqn:Hu; [| unfold handleUpload; by rewrite Hu].
  destruct (first_failure E (requests w) (length (accepted fs)))
    as [Hok | (k & Hk & Hf & Hlt)].
  - by rewrite (handleUpload_success E u fs w Hu Hok).
  - by rewrite (handleUpload_failure E u fs w k Hu Hk Hf Hlt).
Qed.

Lemma handleDelete_user confirmed ident w :
  user (snd (handleDelete E confirmed ident w)) = user w.
Proof.
  destruct confirmed; [| by rewrite handleDelete_cancel].
  destruct (List.find (fun f => String.eqb (BeeFile.id f) ident) (files w))
    as [f|] eqn:Hf; [| by rewrite (handleDelete_absent E true ident w Hf)].
  destruct (requestFails E (requests w)) eqn:Hr.
  - by rewrite (handleDelete_found_fail E ident w f Hf Hr).
  - by rewrite (handleDelete_found_ok E ident w f Hf Hr).
Qed.

Lemma AppInvariant_initial : AppInvariant initialApp.
Proof.
  split; [constructor |]. split; [done | apply Coherent_empty].
Qed.

Lemma AppInvariant_performLogin u s :
  AppInvariant s -> AppInvariant (performLoginTimer u s).
Proof.
  intros (Hnd & _ & HC). split; [exact Hnd |]. split; [done |].
  by apply Coherent_login.
Qed.

Lemma AppInvariant_step ev s :
  AppInvariant s -> AppInvariant (appStep randomUserId E ev s).
Proof.
  intros HI. pose proof HI as (Hnd & Hsess & HC).
  destruct ev as [e | p | n | mode | | | | | fs | confirmed ident]; cbn [appStep].
  - exact HI.
  - exact HI.
  - exact HI.
  - exact HI.
  - unfold handleLogin. destruct (List.find _ _) as [u|]; [| exact HI].
    apply AppInvariant_performLogin. exact HI.
  - unfold handleSignUp.
    destruct (existsb _ _) eqn:Hex; [exact HI |].
    apply AppInvariant_performLogin. split; [| split; [exact Hsess | exact HC]].
    unfold storedUsers. cbn [AppState.beeUsers setTransitioning setBeeUsers].
    rewrite map_app. apply NoDup_app. split; [exact Hnd |]. split.
    + intros e He [-> | Hn]%elem_of_cons; [| by apply elem_of_nil in Hn].
      apply email_registered_spec in He. cbn in He.
      unfold storedUsers in He, Hex. cbn in Hex. congruence.
    + apply NoDup_singleton.
  - split; [exact Hnd |]. split; [done |]. by apply Coherent_logout.
  - unfold restoreSession, freshPage. cbn [AppState.beeUser AppState.world].
    destruct HC as (_ & Hwf & Hlive).
    destruct (AppState.beeUser s) as [u|]; (split; [exact Hnd |]);
      (split; [done |]); (split; [done |]); split; done.
  - split; [exact Hnd |]. split; [| by apply Coherent_upload].
    cbn. by rewrite handleUpload_user.
  - split; [exact Hnd |]. split; [| by apply Coherent_delete].
    cbn. by rewrite handleDelete_user.
Qed.

Lemma AppInvariant_run evs s :
  AppInvariant s -> AppInvariant (runApp randomUserId E evs s).
Proof.
  revert s. induction evs as [|ev evs IH]; intros s HI; [done |].
  cbn. apply IH. by apply AppInvariant_step.
Qed.

End Accounts.

(** X16: a sign-up with an email that is not registered yet logs the new
    user in at once, and from then on (as long as the stored accounts are the
    same) a login with that email and password finds that very account. *)
Theorem signup_then_login
    (randomUserId : nat -> string) (E : Env) (s later : AppState.t) :
  AppState.email s ∉ map Account.email (storedUsers s) ->
  AppState.beeUsers later = AppState.beeUsers (appStep randomUserId E EvSubmitSignUp s) ->
  let newUser := Account.mk (randomUserId (AppState.signups s)) (AppState.email s)
                   (AppState.name s) (AppState.password s) in
  let s1 := appStep randomUserId E EvSubmitSignUp s in
  storedUsers s1 = (storedUsers s ++ [newUser])%list /\
  user (AppState.world s1)
    = Some (User.mk (Account.id newUser) (Account.email newUser) (Account.name newUser)) /\
  snd (handleLogin (setPassword (AppState.password s)
                      (setEmail (AppState.email s) later))) = Some newUser.
Proof.
  intros Hfresh Hlater. cbv zeta.
  assert (Hex : existsb (fun u => String.eqb (Account.email u) (AppState.email s))
                  (storedUsers (setError "" s)) = false).
  { apply not_true_iff_false. intros H.
    by apply email_registered_spec in H. }
  revert Hlater. cbn [appStep]. unfold handleSignUp. rewrite Hex.
  cbn [performLoginTimer]. intros Hlater.
  split; [done |]. split; [done |].
  unfold handleLogin, storedUsers.
  cbn [AppState.beeUsers AppState.email AppState.password setError setPassword setEmail].
  rewrite Hlater.
  cbn [AppState.beeUsers performLoginTimer clearForm setError setName setPassword
       setEmail setTransitioning setWorld setBeeUser setBeeUsers setSignups].
  rewrite find_credentials_last; done.
Qed.

Lemma signup_then_login_witness :
  (AppState.email (setEmail "wasp@hive.test" (setPassword "sting" signedUp))
     ∉ map Account.email
         (storedUsers (setEmail "wasp@hive.test" (setPassword "sting" signedUp)))) /\
  snd (handleLogin
         (setPassword "sting"
            (setEmail "wasp@hive.test"
               (appStep sampleUserIds calmEnv EvSignOut
                  (appStep sampleUserIds calmEnv EvSubmitSignUp
                     (setEmail "wasp@hive.test" (setPassword "sting" signedUp)))))))
  = Some (Account.mk "u1" "wasp@hive.test" "" "sting").
Proof.
  assert (H : AppState.email (setEmail "wasp@hive.test" (setPassword "sting" signedUp))
              ∉ map Account.email
                  (storedUsers (setEmail "wasp@hive.test" (setPassword "sting" signedUp)))).
  { vm_compute. intros H. apply elem_of_cons in H as [H | H]; [discriminate H |].
    by apply elem_of_nil in H. }
  assert (H2 : AppState.beeUsers
                 (appStep sampleUserIds calmEnv EvSignOut
                    (appStep sampleUserIds calmEnv EvSubmitSignUp
                       (setEmail "wasp@hive.test" (setPassword "sting" signedUp))))
               = AppState.beeUsers
                   (appStep sampleUserIds calmEnv EvSubmitSignUp
                      (setEmail "wasp@hive.test" (setPassword "sting" signedUp))))
    by (vm_compute; reflexivity).
  split; [exact H |].
  destruct (signup_then_login sampleUserIds calmEnv _ _ H H2) as (_ & _ & Hl).
  etransitivity; [exact Hl |]. vm_compute. reflexivity.
Defined.

(** X17: however the page is used from a fresh installation, no two stored
    accounts ever have the same email. *)
Theorem stored_emails_stay_unique
    (randomUserId : nat -> string) (E : Env) (evs : list AppEvent) :
  NoDup (map Account.email (storedUsers (runApp randomUserId E evs initialApp))).
Proof.
  destruct (AppInvariant_run randomUserId E evs initialApp AppInvariant_initial)
    as (H & _).
  exact H.
Qed.

(** X18: a sign-up with an email that is already registered changes nothing
    that is stored: the accounts (the password of the existing one included),
    the session and the files stay as they were, nobody is logged in by it,
    and the error text is set. *)
Theorem signup_with_registered_email_is_refused
    (randomUserId : nat -> string) (E : Env) (s : AppState.t) :
  AppState.email s ∈ map Account.email (storedUsers s) ->
  let s1 := appStep randomUserId E EvSubmitSignUp s in
  snd (handleSignUp randomUserId s) = None /\
  AppState.beeUsers s1 = AppState.beeUsers s /\
  AppState.beeUser s1 = AppState.beeUser s /\
  AppState.world s1 = AppState.world s /\
  AppState.signups s1 = AppState.signups s /\
  AppState.error s1 = "Identity already verified in this sector.".
Proof.
  intros Hreg. cbv zeta. cbn [appStep]. unfold handleSignUp.
  assert (Hex : existsb (fun u => String.eqb (Account.email u) (AppState.email s))
                  (storedUsers (setError "" s)) = true)
    by (by apply email_registered_spec).
  by rewrite Hex.
Qed.

Lemma signup_with_registered_email_is_refused_witness :
  (AppState.email (setEmail "bee@hive.test" (setPassword "other" signedUp))
     ∈ map Account.email
         (storedUsers (setEmail "bee@hive.test" (setPassword "other" signedUp)))) /\
  storedUsers (appStep sampleUserIds calmEnv EvSubmitSignUp
                 (setEmail "bee@hive.test" (setPassword "other" signedUp)))
  = [Account.mk "u0" "bee@hive.test" "Bee" "nectar"].
Proof.
  assert (H : AppState.email (setEmail "bee@hive.test" (setPassword "other" signedUp))
              ∈ map Account.email
                  (storedUsers (setEmail "bee@hive.test" (setPassword "other" signedUp)))).
  { vm_compute. by left. }
  split; [exact H |].
  destruct (signup_with_registered_email_is_refused sampleUserIds calmEnv _ H)
    as (_ & Hu & _).
  unfold storedUsers. rewrite Hu. vm_compute. reflexivity.
Defined.

(** X19: in any state the page can reach, a login with the email of a stored
    account succeeds exactly when the password typed is that account's
    password, and then it is that account that is logged in; with any other
    password nobody is logged in, the session and the files are untouched and
    the error text is set. *)
Theorem login_checks_the_password
    (randomUserId : nat -> string) (E : Env) (evs : list AppEvent)
    (acc : Account.t) (typed : string) :
  acc ∈ storedUsers (runApp randomUserId E evs initialApp) ->
  let s := setPassword typed
             (setEmail (Account.email acc) (runApp randomUserId E evs initialApp)) in
  let s1 := appStep randomUserId E EvSubmitLogin s in
  (snd (handleLogin s) = Some acc <-> typed = Account.password acc) /\
  (typed = Account.password acc ->
     user (AppState.world s1)
       = Some (User.mk (Account.id acc) (Account.email acc) (Account.name acc)) /\
     AppState.beeUser s1 = user (AppState.world s1)) /\
  (typed <> Account.password acc ->
     snd (handleLogin s) = None /\
     AppState.world s1 = AppState.world s /\
     AppState.beeUser s1 = AppState.beeUser s /\
     AppState.error s1 = "Access denied. Lattice credentials mismatch.").
Proof.
  intros Hacc. cbv zeta.
  set (s0 := runApp randomUserId E evs initialApp) in *.
  destruct (AppInvariant_run randomUserId E evs initialApp AppInvariant_initial)
    as (Hnd & _). fold s0 in Hnd.
  assert (Hfind : forall u,
            List.find (fun u => String.eqb (Account.email u) (Account.email acc)
                                && String.eqb (Account.password u) typed)
                      (storedUsers s0) = Some u -> u = acc /\ typed = Account.password acc).
  { intros u (Hu & He & Hp)%find_credentials_some.
    assert (u = acc) as -> by (by apply (NoDup_map_elem_inj Account.email (storedUsers s0))).
    done. }
  assert (Hsome : typed = Account.password acc ->
            List.find (fun u => String.eqb (Account.email u) (Account.email acc)
                                && String.eqb (Account.password u) typed)
                      (storedUsers s0) = Some acc).
  { intros ->. destruct (List.find _ (storedUsers s0)) as [u|] eqn:Hf.
    - by destruct (Hfind u eq_refl) as [-> _].
    - by destruct (find_credentials_none _ _ _ Hf acc Hacc). }
  cbn [appStep]. unfold handleLogin.
  change (storedUsers (setError "" (setPassword typed (setEmail (Account.email acc) s0))))
    with (storedUsers s0).
  cbn [AppState.email AppState.password setPassword setEmail].
  split; [| split].
  - split.
    + destruct (List.find _ (storedUsers s0)) as [u|] eqn:Hf; [| done].
      intros _. by destruct (Hfind u eq_refl).
    + intros Ht. by rewrite (Hsome Ht).
  - intros Ht. by rewrite (Hsome Ht).
  - intros Hne. destruct (List.find _ (storedUsers s0)) as [u|] eqn:Hf.
    + by destruct (Hfind u eq_refl).
    + done.
Qed.

Lemma login_checks_the_password_witness :
  (Account.mk "u0" "bee@hive.test" "Bee" "nectar"
     ∈ storedUsers (runApp sampleUserIds calmEnv
                      [EvChangeAuthMode signup; EvName "Bee"; EvEmail "bee@hive.test";
                       EvPassword "nectar"; EvSubmitSignUp] initialApp)) /\
  snd (handleLogin (setPassword "honey" (setEmail "bee@hive.test" signedUp))) = None.
Proof.
  assert (H : Account.mk "u0" "bee@hive.test" "Bee" "nectar"
                ∈ storedUsers (runApp sampleUserIds calmEnv
                     [EvChangeAuthMode signup; EvName "Bee"; EvEmail "bee@hive.test";
                      EvPassword "nectar"; EvSubmitSignUp] initialApp)).
  { vm_compute. by left. }
  split; [exact H |].
  destruct (login_checks_the_password sampleUserIds calmEnv _ _ "honey" H)
    as (_ & _ & Hbad).
  apply Hbad. discriminate.
Defined.

(** X20: a reload of the page loses neither the session nor the listing: in
    any state reached by a session whose handlers run one after the other and
    whose deletions all resolve, after the reload the same user is logged in
    (or nobody, as before), the same records are listed, and everything
    stored is unchanged; only the upload status and the form start afresh. *)
Theorem reload_keeps_session_and_listing
    (randomUserId : nat -> string) (E : Env) (evs : list AppEvent) :
  removalsResolve randomUserId E evs initialApp = true ->
  let s := runApp randomUserId E evs initialApp in
  let s' := appStep randomUserId E EvReload s in
  user (AppState.world s') = user (AppState.world s) /\
  files (AppState.world s') = files (AppState.world s) /\
  metaDoc (AppState.world s') = metaDoc (AppState.world s) /\
  idb (AppState.world s') = idb (AppState.world s) /\
  AppState.beeUsers s' = AppState.beeUsers s /\
  AppState.beeUser s' = AppState.beeUser s /\
  uploadStatus (AppState.world s') = IDLE /\
  AppState.error s' = "".
Proof.
  intros _. cbv zeta.
  destruct (AppInvariant_run randomUserId E evs initialApp AppInvariant_initial)
    as (_ & Hsess & Hview & _).
  set (s := runApp randomUserId E evs initialApp) in *.
  cbn [appStep]. unfold restoreSession, freshPage.
  cbn [AppState.beeUser AppState.world]. unfold ViewInSync in Hview.
  rewrite <- Hsess in Hview.
  destruct (AppState.beeUser s) as [u|] eqn:Hu; cbn; rewrite <- Hsess, ?Hview; done.
Qed.

Lemma reload_keeps_session_and_listing_witness :
  removalsResolve sampleUserIds calmEnv samplePageSession initialApp = true /\
  user (AppState.world (appStep sampleUserIds calmEnv EvReload
          (runApp sampleUserIds calmEnv samplePageSession initialApp)))
  = user (AppState.world (runApp sampleUserIds calmEnv samplePageSession initialApp)) /\
  files (AppState.world (appStep sampleUserIds calmEnv EvReload
          (runApp sampleUserIds calmEnv samplePageSession initialApp)))
  = files (AppState.world (runApp sampleUserIds calmEnv samplePageSession initialApp)) /\
  map BeeFile.id
    (files (AppState.world (runApp sampleUserIds calmEnv samplePageSession initialApp)))
  = ["1"].
Proof.
  assert (H : removalsResolve sampleUserIds calmEnv samplePageSession initialApp
              = true) by (vm_compute; reflexivity).
  pose proof (reload_keeps_session_and_listing sampleUserIds calmEnv
                samplePageSession H) as Hx.
  cbv zeta in Hx. destruct Hx as (Hu & Hf & _).
  split; [exact H |]. split; [exact Hu |]. split; [exact Hf |].
  vm_compute. reflexivity.
Defined.

(** * The preview and the thumbnails *)

Section Preview.

Lemma endsWith_spec (p s : string) :
  JsString.endsWith p s = true <-> EndsWith p s.
Proof.
  unfold EndsWith. induction s as [|c s IH]; cbn [JsString.endsWith].
  - rewrite orb_false_r, String.eqb_eq. split.
    + intros ->. by exists "".
    + intros [pre H]. destruct pre; [done |]. discriminate.
  - rewrite orb_true_iff, String.eqb_eq, IH. split.
    + intros [-> | [pre ->]]; [by exists "" | by exists (String c pre)].
    + intros [[|d pre] H]; [by left |]. right. injection H as -> ->. by exists pre.
Qed.

Lemma hasExtension_intro (exts : list string) (ext fileName : string) :
  In ext exts -> EndsWith ext (JsString.toLowerCase fileName) ->
  hasExtension exts fileName = true.
Proof.
  intros Hin He. apply List.existsb_exists. exists ext.
  split; [done | by apply endsWith_spec].
Qed.

Lemma category_images_iff (r : BeeFile.t) :
  BeeFile.category r = detectCategory (BeeFile.type r) ->
  (BeeFile.category r = images <->
   JsString.startsWith "image/" (BeeFile.type r) = true).
Proof.
  intros ->. destruct (detectCategory_cases (BeeFile.type r)) as (H & _).
  by rewrite H, startsWith_spec.
Qed.

Lemma category_videos_iff (r : BeeFile.t) :
  BeeFile.category r = detectCategory (BeeFile.type r) ->
  (BeeFile.category r = videos <->
   JsString.startsWith "video/" (BeeFile.type r) = true).
Proof.
  intros ->. destruct (detectCategory_cases (BeeFile.type r)) as (_ & H & _).
  by rewrite H, startsWith_spec.
Qed.

End Preview.

(** X21: for a record whose category is the one of its MIME type (as for
    every stored record), the preview mounts the image viewer exactly when the
    category is [images], and a loaded thumbnail is the image exactly then; a
    record of category [videos] always gets the video thumbnail, and the video
    player unless it counts as a PDF; a record of type "application/pdf" is a
    document, with the PDF thumbnail and the PDF viewer. *)
Theorem views_follow_the_category (thumbnailLoaded : bool) (r : BeeFile.t) :
  BeeFile.category r = detectCategory (BeeFile.type r) ->
  (PreviewModal.viewer r = PreviewModal.ImageViewer <-> BeeFile.category r = images) /\
  (FileThumbnail.thumbnail true r = FileThumbnail.ImageThumb
   <-> BeeFile.category r = images) /\
  (BeeFile.category r = videos ->
     FileThumbnail.thumbnail thumbnailLoaded r = FileThumbnail.VideoThumb /\
     (isPDF r = false -> PreviewModal.viewer r = PreviewModal.VideoPlayer)) /\
  (BeeFile.type r = "application/pdf" ->
     BeeFile.category r = documents /\
     FileThumbnail.thumbnail thumbnailLoaded r = FileThumbnail.PdfThumb /\
     PreviewModal.viewer r = PreviewModal.PdfViewer).
Proof.
  intros Hcat.
  pose proof (category_images_iff r Hcat) as Himg.
  pose proof (category_videos_iff r Hcat) as Hvid.
  split; [| split; [| split]].
  - rewrite Himg. unfold PreviewModal.viewer.
    destruct (JsString.startsWith "image/" (BeeFile.type r)); [done |].
    split; [| done].
    by repeat match goal with |- context [if ?b then _ else _] => destruct b end.
  - unfold FileThumbnail.thumbnail. rewrite andb_true_r.
    destruct (bool_decide_reflect (BeeFile.category r = images)) as [Hi | Hi];
      [done |].
    split; [| done].
    by repeat match goal with |- context [if ?b then _ else _] => destruct b end.
  - intros Hv. split.
    + unfold FileThumbnail.thumbnail. rewrite Hv. cbn. done.
    + intros Hpdf. unfold PreviewModal.viewer, PreviewModal.isVideo.
      rewrite Hpdf. rewrite (proj1 Hvid Hv).
      destruct (JsString.startsWith "image/" (BeeFile.type r)); [| done].
      pose proof (proj2 Himg eq_refl). congruence.
  - intros Ht. rewrite Hcat. unfold FileThumbnail.thumbnail, PreviewModal.viewer, isPDF.
    rewrite Hcat, Ht. cbn. done.
Qed.

Lemma views_follow_the_category_witness :
  BeeFile.category (makeBeeFile sampleUser "0" samplePng)
    = detectCategory (BeeFile.type (makeBeeFile sampleUser "0" samplePng)) /\
  PreviewModal.viewer (makeBeeFile sampleUser "0" samplePng) = PreviewModal.ImageViewer /\
  PreviewModal.viewer (makeBeeFile sampleUser "1" samplePdf) = PreviewModal.PdfViewer.
Proof.
  assert (H : BeeFile.category (makeBeeFile sampleUser "0" samplePng)
              = detectCategory (BeeFile.type (makeBeeFile sampleUser "0" samplePng)))
    by reflexivity.
  split; [exact H |].
  split; [apply (proj1 (views_follow_the_category true _ H)); reflexivity |].
  apply (views_follow_the_category true (makeBeeFile sampleUser "1" samplePdf) eq_refl).
  reflexivity.
Defined.

(** X22: for a record whose name ends in ".ogg" (in any letter case), that
    is no image by its type and does not count as a PDF, the header and the
    body of the preview disagree: the header shows the music icon, the body
    mounts the video player. *)
Theorem ogg_header_and_body_disagree (r : BeeFile.t) :
  EndsWith ".ogg" (JsString.toLowerCase (BeeFile.name r)) ->
  JsString.startsWith "image/" (BeeFile.type r) = false ->
  isPDF r = false ->
  PreviewModal.headerIcon r = PreviewModal.MusicIcon /\
  PreviewModal.viewer r = PreviewModal.VideoPlayer.
Proof.
  intros Hogg Himg Hpdf.
  assert (Ha : PreviewModal.isAudio r = true).
  { unfold PreviewModal.isAudio. apply orb_true_iff. right.
    apply (hasExtension_intro _ ".ogg"); [cbn; tauto | done]. }
  assert (Hv : PreviewModal.isVideo r = true).
  { unfold PreviewModal.isVideo. apply orb_true_iff. right.
    apply (hasExtension_intro _ ".ogg"); [cbn; tauto | done]. }
  unfold PreviewModal.headerIcon, PreviewModal.viewer.
  by rewrite Ha, Hv, Himg, Hpdf.
Qed.

Lemma ogg_header_and_body_disagree_witness :
  EndsWith ".ogg" (JsString.toLowerCase (BeeFile.name recordOgg)) /\
  JsString.startsWith "image/" (BeeFile.type recordOgg) = false /\
  isPDF recordOgg = false /\
  PreviewModal.headerIcon recordOgg = PreviewModal.MusicIcon /\
  PreviewModal.viewer recordOgg = PreviewModal.VideoPlayer.
Proof.
  assert (H1 : EndsWith ".ogg" (JsString.toLowerCase (BeeFile.name recordOgg)))
    by (by exists "chime").
  assert (H2 : JsString.startsWith "image/" (BeeFile.type recordOgg) = false)
    by reflexivity.
  assert (H3 : isPDF recordOgg = false) by reflexivity.
  split; [exact H1 |]. split; [exact H2 |]. split; [exact H3 |].
  exact (ogg_header_and_body_disagree recordOgg H1 H2 H3).
Defined.

(** ** Sorting again, and the order of the listing *)

Section SortAgain.

Context {A : Type} (comparefn : A -> A -> Z).
Hypothesis consistent : Consistent comparefn.

Lemma arraySort_idem l :
  arraySort comparefn (arraySort comparefn l) = arraySort comparefn l.
Proof.
  symmetry. apply (arraySort_unique comparefn consistent); [done | | done].
  by apply arraySort_Ordered.
Qed.

Lemma filter_perm (p : A -> bool) (l k : list A) :
  Permutation l k -> Permutation (List.filter p l) (List.filter p k).
Proof.
  induction 1 as [|x l k H IH|x y l|l k m H1 IH1 H2 IH2]; cbn.
  - done.
  - destruct (p x); [by constructor | done].
  - destruct (p x), (p y); try done. apply perm_swap.
  - by etransitivity.
Qed.

Lemma perm_short_eq (l k : list A) :
  Permutation l k -> (length l <= 1)%nat -> l = k.
Proof.
  intros Hp Hl. destruct l as [|a [|b l]]; cbn in Hl; [| | lia].
  - symmetry. by apply Permutation_nil.
  - symmetry. by apply Permutation_length_1_inv.
Qed.

Lemma arraySort_perm_invariant l k :
  Permutation l k ->
  ForallOrdPairs (fun a b => comparefn a b <> 0%Z) l ->
  arraySort comparefn l = arraySort comparefn k.
Proof.
  intros Hp Hties. apply (arraySort_unique comparefn consistent).
  - by rewrite arraySort_perm.
  - by apply arraySort_Ordered.
  - intros x. rewrite (arraySort_stable comparefn consistent).
    apply perm_short_eq; [by apply filter_perm | by apply tiedWith_short].
Qed.

End SortAgain.

Lemma filter_all_true {A} (p : A -> bool) (l : list A) :
  (forall x, In x l -> p x = true) -> List.filter p l = l.
Proof.
  induction l as [|a l IH]; intros H; [done |]. cbn.
  rewrite (H a) by (by left). f_equal. apply IH. intros x Hx. apply H. by right.
Qed.

(** X23: filtering and sorting the view once more, with the same search,
    category, key and order, gives the view unchanged. *)
Theorem view_of_the_view
    (localeCompare : string -> string -> Z) (fs : list BeeFile.t)
    (search : string) (activeCategory : FileCategory)
    (sortBy : SortBy) (sortOrder : SortOrder) :
  Consistent localeCompare ->
  filteredFiles localeCompare
    (filteredFiles localeCompare fs search activeCategory sortBy sortOrder)
    search activeCategory sortBy sortOrder
  = filteredFiles localeCompare fs search activeCategory sortBy sortOrder.
Proof.
  intros Hc. unfold filteredFiles.
  rewrite (filter_all_true (matchesFilter search activeCategory)
             (arraySort _ _)).
  - apply arraySort_idem. by apply compareFiles_consistent.
  - intros r Hr. apply (Permutation_in r (arraySort_perm _ _)) in Hr.
    by apply List.filter_In in Hr as [_ Hr].
Qed.

Lemma view_of_the_view_witness :
  Consistent codeUnitCompare /\
  filteredFiles codeUnitCompare
    (filteredFiles codeUnitCompare [recordB; recordA] "" all SortName Asc)
    "" all SortName Asc
  = filteredFiles codeUnitCompare [recordB; recordA] "" all SortName Asc.
Proof.
  split; [exact codeUnitCompare_consistent |].
  exact (view_of_the_view codeUnitCompare [recordB; recordA] "" all SortName Asc
           codeUnitCompare_consistent).
Defined.

(** X24: when no two visible records have equal sort keys, the view does not
    depend on the order of the listing: two listings with the same records
    give the same view. *)
Theorem view_ignores_listing_order
    (localeCompare : string -> string -> Z) (fs1 fs2 : list BeeFile.t)
    (search : string) (activeCategory : FileCategory)
    (sortBy : SortBy) (sortOrder : SortOrder) :
  Consistent localeCompare ->
  Permutation fs1 fs2 ->
  ForallOrdPairs (fun a b => ~ KeyTie localeCompare sortBy a b)
    (List.filter (matchesFilter search activeCategory) fs1) ->
  filteredFiles localeCompare fs1 search activeCategory sortBy sortOrder
  = filteredFiles localeCompare fs2 search activeCategory sortBy sortOrder.
Proof.
  intros Hc Hp Hties. unfold filteredFiles.
  apply arraySort_perm_invariant.
  - by apply compareFiles_consistent.
  - by apply filter_perm.
  - induction Hties as [|a l Ha Hl IH]; constructor; [| done].
    eapply List.Forall_impl; [| exact Ha].
    intros b Hab Heq. by apply Hab, (compareFiles_KeyTie localeCompare sortBy sortOrder).
Qed.

Lemma view_ignores_listing_order_witness :
  Consistent codeUnitCompare /\
  Permutation [recordB; recordA] [recordA; recordB] /\
  filteredFiles codeUnitCompare [recordB; recordA] "" all SortName Asc
  = filteredFiles codeUnitCompare [recordA; recordB] "" all SortName Asc /\
  filteredFiles codeUnitCompare [recordB; recordA] "" all SortSize Asc
  <> filteredFiles codeUnitCompare [recordA; recordB] "" all SortSize Asc.
Proof.
  assert (Hp : Permutation [recordB; recordA] [recordA; recordB]) by apply perm_swap.
  assert (H : ForallOrdPairs (fun a b => ~ KeyTie codeUnitCompare SortName a b)
                (List.filter (matchesFilter "" all) [recordB; recordA])).
  { repeat constructor. intros Heq. vm_compute in Heq. discriminate Heq. }
  split; [exact codeUnitCompare_consistent |]. split; [exact Hp |].
  split; [| vm_compute; discriminate].
  exact (view_ignores_listing_order codeUnitCompare _ _ "" all SortName Asc
           codeUnitCompare_consistent Hp H).
Defined.

Section UserIds.

Context (randomUserId : nat -> string) (E : Env).
Hypothesis randomUserId_inj :
  forall i j, randomUserId i = randomUserId j -> i = j.

Lemma UserIdsDrawn_performLogin u s :
  UserIdsDrawn randomUserId s -> UserIdsDrawn randomUserId (performLoginTimer u s).
Proof. done. Qed.

Lemma UserIdsDrawn_step ev s :
  UserIdsDrawn randomUserId s ->
  UserIdsDrawn randomUserId (appStep randomUserId E ev s).
Proof.
  intros HI. pose proof HI as (Hnd & Hdrawn).
  destruct ev as [e | p | n | mode | | | | | fs | confirmed ident]; cbn [appStep];
    try exact HI.
  - unfold handleLogin. destruct (List.find _ _) as [u|]; exact HI.
  - unfold handleSignUp. destruct (existsb _ _); [exact HI |].
    apply UserIdsDrawn_performLogin. unfold UserIdsDrawn, storedUsers.
    cbn [AppState.beeUsers AppState.signups setTransitioning setBeeUsers setSignups].
    fold (storedUsers s). change (storedUsers (setError "" s)) with (storedUsers s).
    rewrite map_app. cbn [map Account.id]. split.
    + apply NoDup_app. split; [exact Hnd |]. split; [| apply NoDup_singleton].
      intros i Hi [-> | Hn]%elem_of_cons; [| by apply elem_of_nil in Hn].
      destruct (Hdrawn _ Hi) as (k & Hk & Heq).
      apply randomUserId_inj in Heq. lia.
    + intros i [Hi | Hi]%elem_of_app.
      * destruct (Hdrawn i Hi) as (k & Hk & ->). exists k. split; [lia | done].
      * apply elem_of_cons in Hi as [-> | Hi]; [| by apply elem_of_nil in Hi].
        exists (AppState.signups s). split; [lia | done].
  - unfold restoreSession, freshPage. cbn [AppState.beeUser].
    by destruct (AppState.beeUser s).
Qed.

Lemma UserIdsDrawn_run evs s :
  UserIdsDrawn randomUserId s -> UserIdsDrawn randomUserId (runApp randomUserId E evs s).
Proof.
  revert s. induction evs as [|ev evs IH]; intros s HI; [done |].
  cbn. apply IH. by apply UserIdsDrawn_step.
Qed.

End UserIds.

(** X25: provided the source of user ids never yields the same id twice, no
    two stored accounts ever share an id, however the page is used from a
    fresh installation (the code itself never compares ids). *)
Theorem account_ids_unique
    (randomUserId : nat -> string) (E : Env) (evs : list AppEvent) :
  (forall i j, randomUserId i = randomUserId j -> i = j) ->
  NoDup (map Account.id (storedUsers (runApp randomUserId E evs initialApp))).
Proof.
  intros Hinj.
  apply (UserIdsDrawn_run randomUserId E Hinj evs initialApp).
  split; [constructor | by intros i ?%elem_of_nil].
Qed.

Lemma account_ids_unique_witness :
  (forall i j, sampleUserIds i = sampleUserIds j -> i = j) /\
  NoDup (map Account.id
           (storedUsers (runApp sampleUserIds calmEnv
              [EvEmail "bee@hive.test"; EvPassword "nectar"; EvSubmitSignUp;
               EvSignOut; EvEmail "wasp@hive.test"; EvPassword "sting";
               EvSubmitSignUp] initialApp))).
Proof.
  assert (H : forall i j, sampleUserIds i = sampleUserIds j -> i = j).
  { intros i j Hij. unfold sampleUserIds in Hij. cbn in Hij.
    injection Hij as Hij. exact (pretty_nat_inj i j Hij). }
  split; [exact H |].
  exact (account_ids_unique sampleUserIds calmEnv _ H).
Defined.
